(** * The CSS selector builder of [src/06-objects-tasks.js]

    A shallow embedding of [cssSelectorBuilder]: the [Builder] class
    (ordering state machine and [stringify]), the [Combiner] constructor
    function and the facade object that creates them.  Objects live in a
    store and are passed around by reference, as in the source; a method
    body is a computation over its receiver [this] that either returns or
    throws, and the receiver keeps whatever was written before a throw. *)

From Stdlib Require Import Ascii String.
From stdpp Require Import gmap strings list.

Local Open Scope string_scope.

(** ** Completions: a method call returns, throws, or never finishes *)

Inductive Error :=
  | JsError (message : string)
  | TypeError.

Inductive completion (A : Type) :=
  | Normal (a : A)
  | Throw (e : Error)
  | Diverge.
Arguments Normal {A} a.
Arguments Throw {A} e.
Arguments Diverge {A}.

(** A computation over a mutable state [S]: the state that comes out is the
    state in force when the computation returned or threw. *)
Definition M (S A : Type) : Type := S -> completion A * S.

Definition ret {S A} (a : A) : M S A := fun s => (Normal a, s).

Definition bind {S A B} (m : M S A) (k : A -> M S B) : M S B :=
  fun s =>
    match m s with
    | (Normal a, s') => k a s'
    | (Throw e, s') => (Throw e, s')
    | (Diverge, s') => (Diverge, s')
    end.

Definition throw {S A} (e : Error) : M S A := fun s => (Throw e, s).
Definition get {S} : M S S := fun s => (Normal s, s).
Definition modify {S} (f : S -> S) : M S unit := fun s => (Normal tt, f s).

Notation "'let*' x := m 'in' k" := (bind m (fun x => k))
  (at level 10, x name, m at level 100, k at level 200).
Notation "m ;;; k" := (bind m (fun _ => k))
  (at level 100, k at level 200, right associativity).

(** ** JavaScript values used by the builder *)

(** [if (x)] on a property that is [undefined] or a string. *)
Definition truthy (x : option string) : bool :=
  match x with
  | Some (String _ _) => true
  | Some EmptyString => false
  | None => false
  end.

(** A template literal hole [${x}] for such a property. *)
Definition to_String (x : option string) : string :=
  match x with
  | Some s => s
  | None => "undefined"
  end.

(** [a[i] = x] on an array of booleans.  Inside the array the slot is
    overwritten; past its end JavaScript grows the array, the skipped slots
    being holes, which read as [undefined] and so as [false] in a test. *)
Definition array_set (i : nat) (x : bool) (a : list bool) : list bool :=
  if decide (i < length a) then <[i:=x]> a
  else a ++ replicate (i - length a) false ++ [x].

(** [a[j]] used as a condition. *)
Definition array_test (a : list bool) (j : nat) : bool :=
  default false (a !! j).

(** [Array.prototype.join] on an array of strings. *)
Fixpoint join (sep : string) (a : list string) : string :=
  match a with
  | [] => ""
  | [x] => x
  | x :: a' => x +:+ sep +:+ join sep a'
  end.

Definition order_message : string :=
  "Selector parts should be arranged in the following order: element, id, class, attribute, pseudo-class, pseudo-element".

Definition duplicate_message : string :=
  "Element, id and pseudo-element should not occur more then one time inside the selector".

Definition OrderViolationError : Error := JsError order_message.
Definition DuplicateFragmentError : Error := JsError duplicate_message.

(** ** class Builder *)

Module StateVars.
Record t := mk {
  sElement : nat;
  sId : nat;
  sClass : nat;
  sAttr : nat;
  sPseudo : nat;
  sPseudoE : nat
}.
End StateVars.

Module Builder.

Record t := mk {
  sElement : option string;
  sId : option string;
  sClass : list string;
  sAttr : list string;
  sPseudo : list string;
  sPseudoE : option string;
  stateVars : StateVars.t;
  state : list bool
}.

Definition set_sElement (v : string) (b : t) : t :=
  mk (Some v) (sId b) (sClass b) (sAttr b) (sPseudo b) (sPseudoE b)
     (stateVars b) (state b).
Definition set_sId (v : string) (b : t) : t :=
  mk (sElement b) (Some v) (sClass b) (sAttr b) (sPseudo b) (sPseudoE b)
     (stateVars b) (state b).
Definition push_sClass (v : string) (b : t) : t :=
  mk (sElement b) (sId b) (sClass b ++ [v]) (sAttr b) (sPseudo b) (sPseudoE b)
     (stateVars b) (state b).
Definition push_sAttr (v : string) (b : t) : t :=
  mk (sElement b) (sId b) (sClass b) (sAttr b ++ [v]) (sPseudo b) (sPseudoE b)
     (stateVars b) (state b).
Definition push_sPseudo (v : string) (b : t) : t :=
  mk (sElement b) (sId b) (sClass b) (sAttr b) (sPseudo b ++ [v]) (sPseudoE b)
     (stateVars b) (state b).
Definition set_sPseudoE (v : string) (b : t) : t :=
  mk (sElement b) (sId b) (sClass b) (sAttr b) (sPseudo b) (Some v)
     (stateVars b) (state b).
Definition set_state (i : nat) (b : t) : t :=
  mk (sElement b) (sId b) (sClass b) (sAttr b) (sPseudo b) (sPseudoE b)
     (stateVars b) (array_set i true (state b)).

(** [constructor()]: the three single-valued properties are not created,
    so they read as [undefined]. *)
Definition constructor : t :=
  mk None None [] [] [] None
     (StateVars.mk 0 1 2 3 4 5)
     (replicate 6 false).

(** The [for] loop of [checkState], [n] iterations from index [j] on.
    The body writes nothing, so the number of iterations is fixed when the
    loop is entered: [state.length - j]. *)
Fixpoint checkState_loop (n j : nat) : M t unit :=
  match n with
  | O => ret tt
  | S n' =>
      let* this := get in
      if array_test (state this) j then throw OrderViolationError
      else checkState_loop n' (S j)
  end.

Definition checkState (i : nat) : M t unit :=
  modify (set_state i) ;;;
  let* this := get in
  checkState_loop (length (state this) - (i + 1)) (i + 1).

Definition element (v : string) : M t unit :=
  let* this := get in
  if truthy (sElement this) then throw DuplicateFragmentError
  else
    modify (set_sElement v) ;;;
    let* this := get in
    checkState (StateVars.sElement (stateVars this)).

Definition id (v : string) : M t unit :=
  let* this := get in
  if truthy (sId this) then throw DuplicateFragmentError
  else
    modify (set_sId v) ;;;
    let* this := get in
    checkState (StateVars.sId (stateVars this)).

Definition class (v : string) : M t unit :=
  modify (push_sClass v) ;;;
  let* this := get in
  checkState (StateVars.sClass (stateVars this)).

Definition attr (v : string) : M t unit :=
  modify (push_sAttr v) ;;;
  let* this := get in
  checkState (StateVars.sAttr (stateVars this)).

Definition pseudoClass (v : string) : M t unit :=
  modify (push_sPseudo v) ;;;
  let* this := get in
  checkState (StateVars.sPseudo (stateVars this)).

Definition pseudoElement (v : string) : M t unit :=
  let* this := get in
  if truthy (sPseudoE this) then throw DuplicateFragmentError
  else
    modify (set_sPseudoE v) ;;;
    let* this := get in
    checkState (StateVars.sPseudoE (stateVars this)).

(** [stringify()]: [result] is the local variable of the source. *)
Definition stringify : M t string :=
  let* this := get in
  let result := "" in
  let result :=
    if truthy (sElement this) then result +:+ to_String (sElement this)
    else result in
  let result :=
    if truthy (sId this) then result +:+ ("#" +:+ to_String (sId this))
    else result in
  let result :=
    if decide (0 < length (sClass this))
    then result +:+ join "" (map (fun c => "." +:+ c) (sClass this))
    else result in
  let result :=
    if decide (0 < length (sAttr this))
    then result +:+ join "" (map (fun a => "[" +:+ a +:+ "]") (sAttr this))
    else result in
  let result :=
    if decide (0 < length (sPseudo this))
    then result +:+ join "" (map (fun p => ":" +:+ p) (sPseudo this))
    else result in
  let result :=
    if truthy (sPseudoE this) then result +:+ ("::" +:+ to_String (sPseudoE this))
    else result in
  ret result.

End Builder.

(** ** The store, [Combiner] and the facade *)

(** Objects are passed by reference: a renderable value is the address of a
    [Builder] or of a [Combiner] in the store. *)
Definition loc := nat.

Module Combiner.

(** The properties [combine] writes; a freshly constructed object has
    none of them. *)
Record t := mk {
  s1 : option loc;
  s2 : option loc;
  combiner : option string
}.

Definition constructor : t := mk None None None.

(** [this.combine = (s1, combiner, s2) => { ... }] *)
Definition combine (a : loc) (symbol : string) (b : loc) : M t unit :=
  modify (fun this => mk (Some a) (s2 this) (combiner this)) ;;;
  modify (fun this => mk (s1 this) (Some b) (combiner this)) ;;;
  modify (fun this => mk (s1 this) (s2 this) (Some symbol)).

End Combiner.

Inductive object :=
  | OBuilder (b : Builder.t)
  | OCombiner (c : Combiner.t).

Abbreviation heap := (gmap loc object).

(** [new C()] *)
Definition new (o : object) : M heap loc :=
  fun h => let l := fresh (dom h) in (Normal l, <[l:=o]> h).

(** A method body run with [this] bound to the object at [l]. *)
Definition on_Builder {A} (l : loc) (body : M Builder.t A) : M heap A :=
  fun h =>
    match h !! l with
    | Some (OBuilder b) => let (r, b') := body b in (r, <[l:=OBuilder b']> h)
    | _ => (Throw TypeError, h)
    end.

Definition on_Combiner {A} (l : loc) (body : M Combiner.t A) : M heap A :=
  fun h =>
    match h !! l with
    | Some (OCombiner c) => let (r, c') := body c in (r, <[l:=OCombiner c']> h)
    | _ => (Throw TypeError, h)
    end.

(** [x.stringify()] on a property [x] of the receiver: [undefined] has no
    such method. *)
Definition call_stringify (stringify : loc -> M heap string)
    (x : option loc) : M heap string :=
  match x with
  | Some l => stringify l
  | None => throw TypeError
  end.

(** [l.stringify()], dispatched on the object at [l].  A combiner calls the
    method of its operands, which may be combiners again; [fuel] bounds the
    depth of these calls. *)
Fixpoint stringify (fuel : nat) (l : loc) : M heap string :=
  match fuel with
  | O => fun h => (Diverge, h)
  | S n =>
      fun h =>
        match h !! l with
        | Some (OBuilder _) => on_Builder l Builder.stringify h
        | Some (OCombiner _) =>
            (let* left := (let* this := on_Combiner l get in
                           call_stringify (stringify n) (Combiner.s1 this)) in
             let* this := on_Combiner l get in
             let symbol := to_String (Combiner.combiner this) in
             let* right := (let* this := on_Combiner l get in
                            call_stringify (stringify n) (Combiner.s2 this)) in
             ret (left +:+ " " +:+ symbol +:+ " " +:+ right)) h
        | None => (Throw TypeError, h)
        end
  end.

Module cssSelectorBuilder.

Definition element (value : string) : M heap loc :=
  let* builder := new (OBuilder Builder.constructor) in
  on_Builder builder (Builder.element value) ;;; ret builder.

Definition id (value : string) : M heap loc :=
  let* builder := new (OBuilder Builder.constructor) in
  on_Builder builder (Builder.id value) ;;; ret builder.

Definition class (value : string) : M heap loc :=
  let* builder := new (OBuilder Builder.constructor) in
  on_Builder builder (Builder.class value) ;;; ret builder.

Definition attr (value : string) : M heap loc :=
  let* builder := new (OBuilder Builder.constructor) in
  on_Builder builder (Builder.attr value) ;;; ret builder.

Definition pseudoClass (value : string) : M heap loc :=
  let* builder := new (OBuilder Builder.constructor) in
  on_Builder builder (Builder.pseudoClass value) ;;; ret builder.

Definition pseudoElement (value : string) : M heap loc :=
  let* builder := new (OBuilder Builder.constructor) in
  on_Builder builder (Builder.pseudoElement value) ;;; ret builder.

Definition combine (s1 : loc) (symbol : string) (s2 : loc) : M heap loc :=
  let* combiner := new (OCombiner Combiner.constructor) in
  on_Combiner combiner (Combiner.combine s1 symbol s2) ;;; ret combiner.

End cssSelectorBuilder.

(** The chained calls [x.class(v)] and the like return [x]. *)
Definition chain (l : loc) (body : M Builder.t unit) : M heap loc :=
  on_Builder l body ;;; ret l.

(** ** Sequences of fragment additions on one builder *)

Inductive Kind :=
  | KElement | KId | KClass | KAttr | KPseudoClass | KPseudoElement.

#[global] Instance Kind_eq_dec : EqDecision Kind.
Proof. solve_decision. Defined.

(** The ordering stage of each kind of fragment. *)
Definition stage (k : Kind) : nat :=
  match k with
  | KElement => 0
  | KId => 1
  | KClass => 2
  | KAttr => 3
  | KPseudoClass => 4
  | KPseudoElement => 5
  end.

Record Call := mkCall { kind : Kind; value : string }.

Definition invoke (c : Call) : M Builder.t unit :=
  match kind c with
  | KElement => Builder.element (value c)
  | KId => Builder.id (value c)
  | KClass => Builder.class (value c)
  | KAttr => Builder.attr (value c)
  | KPseudoClass => Builder.pseudoClass (value c)
  | KPseudoElement => Builder.pseudoElement (value c)
  end.

(** The builder after a sequence of calls; a caller that catches an error
    still holds the builder, so the sequence goes on after a throw. *)
Definition after (calls : list Call) (b : Builder.t) : Builder.t :=
  fold_left (fun b c => snd (invoke c b)) calls b.

(** How each call of the sequence completed. *)
Fixpoint outcomes (calls : list Call) (b : Builder.t) : list (completion unit) :=
  match calls with
  | [] => []
  | c :: calls' => fst (invoke c b) :: outcomes calls' (snd (invoke c b))
  end.

(** The slot of [state] a call marks, read from the receiver's [stateVars]. *)
Definition slot (b : Builder.t) (k : Kind) : nat :=
  match k with
  | KElement => StateVars.sElement (Builder.stateVars b)
  | KId => StateVars.sId (Builder.stateVars b)
  | KClass => StateVars.sClass (Builder.stateVars b)
  | KAttr => StateVars.sAttr (Builder.stateVars b)
  | KPseudoClass => StateVars.sPseudo (Builder.stateVars b)
  | KPseudoElement => StateVars.sPseudoE (Builder.stateVars b)
  end.

(** The write a call makes to its own property. *)
Definition store (c : Call) (b : Builder.t) : Builder.t :=
  match kind c with
  | KElement => Builder.set_sElement (value c) b
  | KId => Builder.set_sId (value c) b
  | KClass => Builder.push_sClass (value c) b
  | KAttr => Builder.push_sAttr (value c) b
  | KPseudoClass => Builder.push_sPseudo (value c) b
  | KPseudoElement => Builder.set_sPseudoE (value c) b
  end.

(** The guard of [element], [id] and [pseudoElement]. *)
Definition guarded (c : Call) (b : Builder.t) : bool :=
  match kind c with
  | KElement => truthy (Builder.sElement b)
  | KId => truthy (Builder.sId b)
  | KPseudoElement => truthy (Builder.sPseudoE b)
  | _ => false
  end.

(** Some slot among the [n] slots from [j] on is set. *)
Definition touched_from (a : list bool) (j n : nat) : bool :=
  existsb (array_test a) (seq j n).

(** The value a call of kind [k] has put in the builder [b']: assigned to
    the property, or appended to what the sequence held in [b]. *)
Definition stored (c : Call) (b b' : Builder.t) : Prop :=
  match kind c with
  | KElement => Builder.sElement b' = Some (value c)
  | KId => Builder.sId b' = Some (value c)
  | KClass => Builder.sClass b' = (Builder.sClass b ++ [value c])%list
  | KAttr => Builder.sAttr b' = (Builder.sAttr b ++ [value c])%list
  | KPseudoClass => Builder.sPseudo b' = (Builder.sPseudo b ++ [value c])%list
  | KPseudoElement => Builder.sPseudoE b' = Some (value c)
  end.


(** ** The rendering as section 4.1 of the specification words it *)

(** Concatenation with no separator. *)
Definition cat (l : list string) : string := foldr String.append "" l.

Module Rendering.

(** element, as it is *)
Definition element (b : Builder.t) : string :=
  match Builder.sElement b with
  | Some v => v
  | None => ""
  end.

(** id, prefixed with [#]; nothing when absent or empty *)
Definition id (b : Builder.t) : string :=
  match Builder.sId b with
  | Some (String _ _ as v) => "#" +:+ v
  | _ => ""
  end.

(** each class prefixed with [.], in insertion order *)
Definition classes (l : list string) : string :=
  cat (map (fun c => "." +:+ c) l).

(** each attribute wrapped in brackets, in insertion order *)
Definition attributes (l : list string) : string :=
  cat (map (fun a => "[" +:+ a +:+ "]") l).

(** each pseudo-class prefixed with [:], in insertion order *)
Definition pseudoClasses (l : list string) : string :=
  cat (map (fun p => ":" +:+ p) l).

(** pseudo-element, prefixed with [::]; nothing when absent or empty *)
Definition pseudoElement (b : Builder.t) : string :=
  match Builder.sPseudoE b with
  | Some (String _ _ as v) => "::" +:+ v
  | _ => ""
  end.

Definition render (b : Builder.t) : string :=
  element b +:+ id b +:+ classes (Builder.sClass b) +:+
  attributes (Builder.sAttr b) +:+ pseudoClasses (Builder.sPseudo b) +:+
  pseudoElement b.

End Rendering.

(** A single-valued part is absent ([undefined]) or empty. *)
Definition absent (x : option string) : Prop := x = None \/ x = Some "".

(** White space as [String.prototype.trim] sees it, among the code units
    below 256: tab, line feed, vertical tab, form feed, carriage return,
    space and no-break space. *)
Definition is_whitespace (c : ascii) : bool :=
  let n := nat_of_ascii c in
  (Nat.leb 9 n && Nat.leb n 13) || Nat.eqb n 32 || Nat.eqb n 160.

Definition leading_whitespace (s : string) : bool :=
  match s with
  | String c _ => is_whitespace c
  | EmptyString => false
  end.

Fixpoint trailing_whitespace (s : string) : bool :=
  match s with
  | EmptyString => false
  | String c EmptyString => is_whitespace c
  | String _ s' => trailing_whitespace s'
  end.

Definition trimmed (s : string) : Prop :=
  leading_whitespace s = false /\ trailing_whitespace s = false.

(** Every string the builder holds. *)
Definition stored_values (b : Builder.t) : list string :=
  (option_list (Builder.sElement b) ++ option_list (Builder.sId b) ++
   Builder.sClass b ++ Builder.sAttr b ++ Builder.sPseudo b ++
   option_list (Builder.sPseudoE b))%list.

(** The values of the calls of kind [k], in call order. *)
Definition values_of (k : Kind) (calls : list Call) : list string :=
  map value (filter (fun c => kind c = k) calls).

(** ** Builders that calls can produce *)

(** [element], [id] and [pseudoElement] hold one value. *)
Definition single_valued (k : Kind) : bool :=
  match k with
  | KElement | KId | KPseudoElement => true
  | KClass | KAttr | KPseudoClass => false
  end.

(** The property a single-valued kind is kept in. *)
Definition property (k : Kind) (b : Builder.t) : option string :=
  match k with
  | KElement => Builder.sElement b
  | KId => Builder.sId b
  | KPseudoElement => Builder.sPseudoE b
  | KClass | KAttr | KPseudoClass => None
  end.

(** What the constructor sets up and every method keeps: the six slot
    numbers, six slots, and the slot of a property that holds a non-empty
    value is set. *)
Record wf (b : Builder.t) : Prop := mk_wf {
  wf_stateVars : Builder.stateVars b = StateVars.mk 0 1 2 3 4 5;
  wf_length : length (Builder.state b) = 6;
  wf_property : forall k,
    truthy (property k b) = true -> array_test (Builder.state b) (stage k) = true
}.

(** Stage indices never go down along the sequence. *)
Fixpoint non_decreasing (calls : list Call) : bool :=
  match calls with
  | c1 :: calls' =>
      match calls' with
      | c2 :: _ => Nat.leb (stage (kind c1)) (stage (kind c2))
      | [] => true
      end && non_decreasing calls'
  | [] => true
  end.

(** [element], [id] and [pseudoElement] are each added at most once. *)
Definition at_most_once (calls : list Call) : Prop :=
  forall k, single_valued k = true -> length (values_of k calls) <= 1.

(** The fragment one call contributes to the selector text. *)
Definition fragment (k : Kind) (v : string) : string :=
  match k with
  | KElement => v
  | KId => match v with "" => "" | _ => "#" +:+ v end
  | KClass => "." +:+ v
  | KAttr => "[" +:+ v +:+ "]"
  | KPseudoClass => ":" +:+ v
  | KPseudoElement => match v with "" => "" | _ => "::" +:+ v end
  end.

(** The fragments of the calls of kind [k], in call order. *)
Definition fragments (k : Kind) (calls : list Call) : string :=
  cat (map (fragment k) (values_of k calls)).

(** ** Rendering through the store *)

(** [l.stringify()] returns [s] in the store [h]. *)
Definition renders (h : heap) (l : loc) (s : string) : Prop :=
  exists fuel, stringify fuel l h = (Normal s, h).

(** What can be called on a combiner object: its two own properties. *)
Inductive CombinerOp :=
  | OpCombine (s1 : loc) (symbol : string) (s2 : loc)
  | OpStringify (fuel : nat).

Definition perform (l : loc) (op : CombinerOp) (h : heap) : heap :=
  match op with
  | OpCombine a symbol b => snd (on_Combiner l (Combiner.combine a symbol b) h)
  | OpStringify fuel => snd (stringify fuel l h)
  end.

(** ** Histories of a builder, and stores the facade builds *)

(** The call [c] goes back: some earlier call of the history was for a
    later stage. *)
Definition goes_back (calls : list Call) (c : Call) : Prop :=
  exists c', c' ∈ calls /\ stage (kind c) < stage (kind c').

(** The call [c] repeats a single-valued fragment that an earlier call of
    the history gave a non-empty value. *)
Definition repeats (calls : list Call) (c : Call) : Prop :=
  single_valued (kind c) = true /\
  exists c', c' ∈ calls /\ kind c' = kind c /\ value c' <> "".

(** The text a call contributes. *)
Definition call_fragment (c : Call) : string := fragment (kind c) (value c).

(** The part of the rendering that belongs to one kind of fragment. *)
Definition part (k : Kind) (b : Builder.t) : string :=
  match k with
  | KElement => Rendering.element b
  | KId => Rendering.id b
  | KClass => Rendering.classes (Builder.sClass b)
  | KAttr => Rendering.attributes (Builder.sAttr b)
  | KPseudoClass => Rendering.pseudoClasses (Builder.sPseudo b)
  | KPseudoElement => Rendering.pseudoElement b
  end.

(** The facade's entry point for a fragment: [cssSelectorBuilder.element(v)]
    and the like. *)
Definition create (c : Call) : M heap loc :=
  match kind c with
  | KElement => cssSelectorBuilder.element (value c)
  | KId => cssSelectorBuilder.id (value c)
  | KClass => cssSelectorBuilder.class (value c)
  | KAttr => cssSelectorBuilder.attr (value c)
  | KPseudoClass => cssSelectorBuilder.pseudoClass (value c)
  | KPseudoElement => cssSelectorBuilder.pseudoElement (value c)
  end.

(** The stores a program reaches that starts builders with the facade,
    chains fragment calls on them and combines objects it holds with the
    facade's [combine]. *)
Inductive built : heap -> Prop :=
  | built_empty : built ∅
  | built_create c h : built h -> built (snd (create c h))
  | built_chain l c h : built h -> built (snd (chain l (invoke c) h))
  | built_combine a symbol b h :
      built h -> is_Some (h !! a) -> is_Some (h !! b) ->
      built (snd (cssSelectorBuilder.combine a symbol b h)).
(** ** The stage check *)

Ltac unfold_M := unfold bind, get, modify, ret, throw in *.

Lemma checkState_loop_eq n : forall j b,
  Builder.checkState_loop n j b =
  (if touched_from (Builder.state b) j n then Throw OrderViolationError
   else Normal tt, b).
Proof.
  induction n as [|n IH]; intros j b; [reflexivity|].
  cbn [Builder.checkState_loop]. unfold_M. unfold touched_from. cbn [seq existsb].
  destruct (array_test (Builder.state b) j); [reflexivity|].
  rewrite IH. reflexivity.
Qed.

Lemma checkState_eq i b :
  Builder.checkState i b =
  (if touched_from (Builder.state (Builder.set_state i b)) (i + 1)
        (length (Builder.state (Builder.set_state i b)) - (i + 1))
   then Throw OrderViolationError else Normal tt,
   Builder.set_state i b).
Proof.
  unfold Builder.checkState. unfold_M. apply checkState_loop_eq.
Qed.

(** Every call is its guard, then its write, then the stage check. *)
Lemma invoke_eq c b :
  invoke c b =
  if guarded c b then (Throw DuplicateFragmentError, b)
  else Builder.checkState (slot b (kind c)) (store c b).
Proof.
  destruct c as [[] v]; unfold invoke, guarded, store, slot; cbn [kind value];
    unfold Builder.element, Builder.id, Builder.class, Builder.attr,
      Builder.pseudoClass, Builder.pseudoElement; unfold_M;
    try destruct (truthy _); reflexivity.
Qed.

Lemma array_test_set i a : array_test (array_set i true a) i = true.
Proof.
  unfold array_test, array_set. destruct (decide (i < length a)) as [Hlt|Hge].
  - rewrite list_lookup_insert_eq by exact Hlt. reflexivity.
  - rewrite lookup_app_r by lia.
    rewrite lookup_app_r by (rewrite length_replicate; lia).
    rewrite length_replicate.
    replace (i - length a - (i - length a)) with 0 by lia. reflexivity.
Qed.

Lemma array_test_set_ne i j a :
  i <> j -> j < length a -> array_test (array_set i true a) j = array_test a j.
Proof.
  intros Hne Hj. unfold array_test, array_set.
  destruct (decide (i < length a)).
  - rewrite list_lookup_insert_ne by exact Hne. reflexivity.
  - rewrite lookup_app_l by exact Hj. reflexivity.
Qed.

Lemma array_set_length i a : i < length a -> length (array_set i true a) = length a.
Proof.
  intros Hi. unfold array_set. rewrite decide_True by exact Hi. apply length_insert.
Qed.

Lemma touched_from_true a j n :
  touched_from a j n = true <-> exists k, j <= k < j + n /\ array_test a k = true.
Proof.
  unfold touched_from. rewrite existsb_exists. split.
  - intros (k & Hin & Hk). apply in_seq in Hin. exists k. split; [lia|exact Hk].
  - intros (k & Hr & Hk). exists k. split; [apply in_seq; lia|exact Hk].
Qed.

Lemma touched_from_false a j n :
  touched_from a j n = false <-> forall k, j <= k < j + n -> array_test a k = false.
Proof.
  split.
  - intros H k Hr. destruct (array_test a k) eqn:Hk; [|reflexivity].
    rewrite <- H. symmetry. apply touched_from_true. eauto.
  - intros H. destruct (touched_from a j n) eqn:Ht; [|reflexivity].
    apply touched_from_true in Ht as (k & Hr & Hk). rewrite H in Hk by exact Hr.
    discriminate.
Qed.

(** What a call leaves behind, whatever its completion. *)
Lemma invoke_state c b :
  snd (invoke c b) =
  if guarded c b then b else Builder.set_state (slot b (kind c)) (store c b).
Proof.
  rewrite invoke_eq. destruct (guarded c b); [reflexivity|].
  rewrite checkState_eq. reflexivity.
Qed.

Lemma invoke_order_error c b :
  fst (invoke c b) = Throw OrderViolationError ->
  guarded c b = false.
Proof.
  rewrite invoke_eq. destruct (guarded c b); [|reflexivity].
  cbn. intros H. discriminate H.
Qed.

Lemma invoke_duplicate_error c b :
  fst (invoke c b) = Throw DuplicateFragmentError ->
  guarded c b = true.
Proof.
  rewrite invoke_eq. destruct (guarded c b); [reflexivity|].
  rewrite checkState_eq.
  destruct (touched_from _ _ _); cbn; discriminate.
Qed.

(** ** Errors and what they leave in the builder *)

(** C9. A call that throws the duplicate-fragment error comes from the
    guard of [element], [id] or [pseudoElement], and it leaves the builder,
    stored fragments and [state] array alike, exactly as it found it. *)
Theorem duplicate_error_is_atomic (c : Call) (b : Builder.t) :
  fst (invoke c b) = Throw DuplicateFragmentError ->
  kind c ∈ [KElement; KId; KPseudoElement] /\ snd (invoke c b) = b.
Proof.
  intros H. pose proof (invoke_duplicate_error _ _ H) as Hg. split.
  - destruct c as [[] v]; cbn in Hg |- *; try discriminate Hg;
      repeat constructor.
  - rewrite invoke_state, Hg. reflexivity.
Qed.

Lemma duplicate_error_is_atomic_witness :
  let b := after [mkCall KElement "table"; mkCall KClass "wide"] Builder.constructor in
  fst (invoke (mkCall KElement "div") b) = Throw DuplicateFragmentError /\
  kind (mkCall KElement "div") ∈ [KElement; KId; KPseudoElement] /\
  snd (invoke (mkCall KElement "div") b) = b.
Proof.
  intros b.
  assert (H : fst (invoke (mkCall KElement "div") b) = Throw DuplicateFragmentError)
    by reflexivity.
  split; [exact H|].
  exact (duplicate_error_is_atomic (mkCall KElement "div") b H).
Defined.

(** C10. A call that throws the order error has already written its value
    (assigned, or appended to the sequence) and has already set its slot of
    [state]; the builder that is left is the fully mutated one. *)
Theorem order_error_is_not_atomic (c : Call) (b : Builder.t) :
  fst (invoke c b) = Throw OrderViolationError ->
  stored c b (snd (invoke c b)) /\
  array_test (Builder.state (snd (invoke c b))) (slot b (kind c)) = true /\
  snd (invoke c b) = Builder.set_state (slot b (kind c)) (store c b).
Proof.
  intros H. apply invoke_order_error in H.
  rewrite invoke_state, H. split; [|split; [|reflexivity]].
  - destruct c as [[] v]; reflexivity.
  - cbn [Builder.set_state Builder.state]. apply array_test_set.
Qed.

Lemma order_error_is_not_atomic_witness :
  let b := after [mkCall KId "main"] Builder.constructor in
  let c := mkCall KClass "x" in
  let e := mkCall KElement "div" in
  fst (invoke e (snd (invoke c b))) = Throw OrderViolationError /\
  Builder.sElement (snd (invoke e (snd (invoke c b)))) = Some "div" /\
  array_test (Builder.state (snd (invoke e (snd (invoke c b))))) 0 = true.
Proof.
  intros b c e.
  assert (H : fst (invoke e (snd (invoke c b))) = Throw OrderViolationError)
    by reflexivity.
  split; [exact H|].
  destruct (order_error_is_not_atomic e (snd (invoke c b)) H) as (Hs & Ht & _).
  split; [exact Hs|exact Ht].
Defined.

(** ** Rendering *)

Lemma append_cons c s t : String c s +:+ t = String c (s +:+ t).
Proof. reflexivity. Qed.

Lemma append_nil_r s : s +:+ "" = s.
Proof.
  induction s as [|c s IH]; [reflexivity|]. rewrite append_cons, IH. reflexivity.
Qed.

Lemma append_assoc s1 s2 s3 : (s1 +:+ s2) +:+ s3 = s1 +:+ s2 +:+ s3.
Proof.
  induction s1 as [|c s1 IH]; [reflexivity|]. rewrite !append_cons, IH. reflexivity.
Qed.

Lemma join_nosep l : join "" l = cat l.
Proof.
  induction l as [|x l IH]; [reflexivity|].
  destruct l as [|y l].
  - symmetry. apply (append_nil_r x).
  - change (join "" (x :: y :: l)) with (x +:+ "" +:+ join "" (y :: l)).
    rewrite IH. reflexivity.
Qed.

Lemma cat_app l1 l2 : cat (l1 ++ l2) = cat l1 +:+ cat l2.
Proof.
  induction l1 as [|x l1 IH]; [reflexivity|].
  change (x +:+ cat (l1 ++ l2) = (x +:+ cat l1) +:+ cat l2).
  rewrite IH, append_assoc. reflexivity.
Qed.

(** The code's [stringify] computes the rendering of section 4.1 and
    leaves its receiver as it was. *)
Lemma stringify_eq b : Builder.stringify b = (Normal (Rendering.render b), b).
Proof.
  unfold Builder.stringify, Rendering.render, Rendering.element, Rendering.id,
    Rendering.pseudoElement, Rendering.classes, Rendering.attributes,
    Rendering.pseudoClasses.
  unfold_M. f_equal. f_equal.
  destruct b as [e i cs ats ps pe sv st]; cbn [Builder.sElement Builder.sId
    Builder.sClass Builder.sAttr Builder.sPseudo Builder.sPseudoE].
  rewrite !join_nosep.
  assert (Hlen' : forall (f : string -> string) (l : list string) (r : string),
    (if decide (0 < length l) then r +:+ cat (map f l) else r) = r +:+ cat (map f l)).
  { intros f l r. destruct (decide (0 < length l)) as [|Hn]; [reflexivity|].
    destruct l; [symmetry; apply (append_nil_r r)|cbn in Hn; lia]. }
  rewrite !Hlen'.
  destruct e as [[|c1 e]|], i as [[|c2 i]|], pe as [[|c3 pe]|];
    cbn [truthy to_String]; rewrite ?append_assoc, ?append_nil_r; reflexivity.
Qed.

(** C8. [stringify] only reads: the builder that comes out is the builder
    that went in, field for field, and a second call returns the string of
    the first. *)
Theorem stringify_is_read_only (b : Builder.t) :
  snd (Builder.stringify b) = b /\
  (exists s, fst (Builder.stringify b) = Normal s) /\
  fst ((Builder.stringify ;;; Builder.stringify) b) = fst (Builder.stringify b) /\
  snd ((Builder.stringify ;;; Builder.stringify) b) = b.
Proof.
  unfold bind. rewrite !stringify_eq. cbn [fst snd]. rewrite ?stringify_eq.
  cbn [fst snd]. repeat split. eexists. reflexivity.
Qed.

(** *** White space at the ends of a rendering *)

Lemma leading_whitespace_append a b :
  leading_whitespace (a +:+ b) =
  match a with "" => leading_whitespace b | _ => leading_whitespace a end.
Proof. destruct a; reflexivity. Qed.

Lemma trailing_whitespace_cons c s :
  trailing_whitespace (String c s) =
  match s with "" => is_whitespace c | _ => trailing_whitespace s end.
Proof. destruct s; reflexivity. Qed.

Lemma trailing_whitespace_append a b :
  trailing_whitespace (a +:+ b) =
  match b with "" => trailing_whitespace a | _ => trailing_whitespace b end.
Proof.
  induction a as [|c a IH].
  - destruct b; reflexivity.
  - rewrite append_cons, trailing_whitespace_cons, IH.
    destruct b as [|d b]; [rewrite append_nil_r; destruct a; reflexivity|].
    destruct a; reflexivity.
Qed.

Lemma trimmed_nil : trimmed "".
Proof. split; reflexivity. Qed.

Lemma trimmed_append a b : trimmed a -> trimmed b -> trimmed (a +:+ b).
Proof.
  intros [Ha1 Ha2] [Hb1 Hb2]. split.
  - rewrite leading_whitespace_append. destruct a; assumption.
  - rewrite trailing_whitespace_append. destruct b; assumption.
Qed.

Lemma trimmed_cons c s :
  is_whitespace c = false -> trailing_whitespace s = false -> trimmed (String c s).
Proof.
  intros Hc Hs. split; [exact Hc|].
  rewrite trailing_whitespace_cons. destruct s; assumption.
Qed.

Lemma trimmed_cat l : Forall trimmed l -> trimmed (cat l).
Proof.
  induction 1 as [|x l Hx _ IH]; [exact trimmed_nil|].
  change (cat (x :: l)) with (x +:+ cat l). apply trimmed_append; assumption.
Qed.

Lemma trimmed_map (f : string -> string) l :
  (forall v, trimmed v -> trimmed (f v)) ->
  Forall trimmed l -> trimmed (cat (map f l)).
Proof.
  intros Hf Hl. apply trimmed_cat. apply Forall_map.
  eapply Forall_impl; [exact Hl|]. exact Hf.
Qed.

Lemma trimmed_render b :
  Forall trimmed (stored_values b) -> trimmed (Rendering.render b).
Proof.
  unfold stored_values. rewrite !Forall_app.
  intros (He & Hi & Hc & Ha & Hp & Hpe).
  unfold Rendering.render.
  repeat apply trimmed_append.
  - unfold Rendering.element. destruct (Builder.sElement b); [|exact trimmed_nil].
    inversion He; assumption.
  - unfold Rendering.id. destruct (Builder.sId b) as [[|c v]|]; try exact trimmed_nil.
    inversion Hi as [|? ? [_ Hv] _]; subst.
    apply trimmed_cons; [reflexivity|exact Hv].
  - apply trimmed_map; [|exact Hc]. intros v [_ Hv].
    apply trimmed_cons; [reflexivity|exact Hv].
  - apply trimmed_map; [|exact Ha]. intros v _.
    apply trimmed_cons; [reflexivity|].
    rewrite trailing_whitespace_append. reflexivity.
  - apply trimmed_map; [|exact Hp]. intros v [_ Hv].
    apply trimmed_cons; [reflexivity|exact Hv].
  - unfold Rendering.pseudoElement.
    destruct (Builder.sPseudoE b) as [[|c v]|]; try exact trimmed_nil.
    inversion Hpe as [|? ? [_ Hv] _]; subst.
    apply trimmed_cons; [reflexivity|].
    rewrite trailing_whitespace_cons. exact Hv.
Qed.

(** C4, as the code has it.  [stringify] returns the concatenation, in the
    fixed order, of the element as it is, the id after [#], every class
    after [.], every attribute in brackets, every pseudo-class after [:]
    and the pseudo-element after [::]; an absent or empty part adds
    nothing.  It adds no white space of its own: when no stored value
    begins or ends with white space, neither does the result. *)
Theorem stringify_concatenates_parts (b : Builder.t) :
  fst (Builder.stringify b) =
    Normal (Rendering.element b +:+ Rendering.id b +:+
            Rendering.classes (Builder.sClass b) +:+
            Rendering.attributes (Builder.sAttr b) +:+
            Rendering.pseudoClasses (Builder.sPseudo b) +:+
            Rendering.pseudoElement b) /\
  (absent (Builder.sElement b) -> Rendering.element b = "") /\
  (absent (Builder.sId b) -> Rendering.id b = "") /\
  (absent (Builder.sPseudoE b) -> Rendering.pseudoElement b = "") /\
  (Builder.sClass b = [] -> Rendering.classes (Builder.sClass b) = "") /\
  (Builder.sAttr b = [] -> Rendering.attributes (Builder.sAttr b) = "") /\
  (Builder.sPseudo b = [] -> Rendering.pseudoClasses (Builder.sPseudo b) = "") /\
  (Forall trimmed (stored_values b) ->
   exists s, fst (Builder.stringify b) = Normal s /\ trimmed s).
Proof.
  rewrite stringify_eq. cbn [fst].
  split; [reflexivity|].
  unfold Rendering.element, Rendering.id, Rendering.pseudoElement, absent.
  repeat split.
  - intros [-> | ->]; reflexivity.
  - intros [-> | ->]; reflexivity.
  - intros [-> | ->]; reflexivity.
  - intros ->; reflexivity.
  - intros ->; reflexivity.
  - intros ->; reflexivity.
  - intros H. eexists. split; [reflexivity|]. apply trimmed_render, H.
Qed.

Lemma stringify_concatenates_parts_witness :
  let b := after [mkCall KId "main"; mkCall KClass "a b"; mkCall KAttr ""]
             Builder.constructor in
  fst (Builder.stringify b) = Normal "#main.a b[]" /\
  Rendering.element b = "" /\ Rendering.pseudoClasses (Builder.sPseudo b) = "" /\
  exists s, fst (Builder.stringify b) = Normal s /\ trimmed s.
Proof.
  intros b.
  destruct (stringify_concatenates_parts b) as (Hs & He & _ & _ & _ & _ & Hp & Ht).
  split; [exact Hs|].
  split; [apply He; left; reflexivity|].
  split; [apply Hp; reflexivity|].
  apply Ht. repeat constructor.
Defined.

(** The claim as written fails where a stored value carries white space
    itself: [element(' a').stringify()] is [' a']. *)
Lemma stringify_keeps_whitespace_of_values :
  fst ((Builder.element " a" ;;; Builder.stringify) Builder.constructor)
    = Normal " a" /\
  leading_whitespace " a" = true /\ ~ trimmed " a".
Proof.
  split; [reflexivity|]. split; [reflexivity|].
  intros [H _]. discriminate H.
Qed.

(** ** Repeated classes, attributes and pseudo-classes *)

Lemma values_of_cons k c calls :
  values_of k (c :: calls) =
  if decide (kind c = k) then value c :: values_of k calls else values_of k calls.
Proof.
  unfold values_of. rewrite filter_cons. destruct (decide (kind c = k)); reflexivity.
Qed.

Lemma values_of_app k calls1 calls2 :
  values_of k (calls1 ++ calls2) = (values_of k calls1 ++ values_of k calls2)%list.
Proof. unfold values_of. rewrite filter_app, map_app. reflexivity. Qed.

(** One call appends its value to the sequence of its kind and to no other,
    whether it returns or throws. *)
Lemma invoke_sequences c b :
  Builder.sClass (snd (invoke c b)) =
    (Builder.sClass b ++ values_of KClass [c])%list /\
  Builder.sAttr (snd (invoke c b)) =
    (Builder.sAttr b ++ values_of KAttr [c])%list /\
  Builder.sPseudo (snd (invoke c b)) =
    (Builder.sPseudo b ++ values_of KPseudoClass [c])%list.
Proof.
  rewrite invoke_state.
  destruct c as [[] v]; unfold guarded; cbn [kind];
    try destruct (truthy _); cbn; rewrite ?app_nil_r; repeat split; reflexivity.
Qed.

Lemma after_cons c calls b : after (c :: calls) b = after calls (snd (invoke c b)).
Proof. reflexivity. Qed.

Lemma after_app calls1 calls2 b :
  after (calls1 ++ calls2) b = after calls2 (after calls1 b).
Proof. unfold after. apply fold_left_app. Qed.

Lemma after_sequences calls : forall b,
  Builder.sClass (after calls b) =
    (Builder.sClass b ++ values_of KClass calls)%list /\
  Builder.sAttr (after calls b) =
    (Builder.sAttr b ++ values_of KAttr calls)%list /\
  Builder.sPseudo (after calls b) =
    (Builder.sPseudo b ++ values_of KPseudoClass calls)%list.
Proof.
  induction calls as [|c calls IH]; intros b.
  - cbn. rewrite !app_nil_r. repeat split; reflexivity.
  - rewrite after_cons.
    destruct (IH (snd (invoke c b))) as (H1 & H2 & H3).
    destruct (invoke_sequences c b) as (E1 & E2 & E3).
    rewrite H1, H2, H3, E1, E2, E3.
    change (c :: calls) with ([c] ++ calls)%list.
    rewrite !values_of_app, !app_assoc. repeat split; reflexivity.
Qed.

(** C6. Whatever calls are made on a builder, and whether or not some of
    them throw, the builder holds what it held followed by the values of
    all its [class], [attr] and [pseudoClass] calls in call order, equal
    values included, and [stringify] lists them so. *)
Theorem repeated_fragments_keep_insertion_order (calls : list Call) (b : Builder.t) :
  Builder.sClass (after calls b) = (Builder.sClass b ++ values_of KClass calls)%list /\
  Builder.sAttr (after calls b) = (Builder.sAttr b ++ values_of KAttr calls)%list /\
  Builder.sPseudo (after calls b) =
    (Builder.sPseudo b ++ values_of KPseudoClass calls)%list /\
  fst (Builder.stringify (after calls b)) =
    Normal (Rendering.element (after calls b) +:+
            Rendering.id (after calls b) +:+
            cat (map (fun c => "." +:+ c)
                   (Builder.sClass b ++ values_of KClass calls)) +:+
            cat (map (fun a => "[" +:+ a +:+ "]")
                   (Builder.sAttr b ++ values_of KAttr calls)) +:+
            cat (map (fun p => ":" +:+ p)
                   (Builder.sPseudo b ++ values_of KPseudoClass calls)) +:+
            Rendering.pseudoElement (after calls b)).
Proof.
  destruct (after_sequences calls b) as (H1 & H2 & H3).
  repeat split; try assumption.
  rewrite stringify_eq. cbn [fst]. unfold Rendering.render, Rendering.classes,
    Rendering.attributes, Rendering.pseudoClasses.
  rewrite H1, H2, H3. reflexivity.
Qed.

Example same_class_twice :
  fst ((Builder.class "a" ;;; Builder.class "b" ;;; Builder.class "a" ;;;
        Builder.stringify) Builder.constructor) = Normal ".a.b.a".
Proof. reflexivity. Qed.

(** ** Builders that calls can produce *)

Lemma guarded_property c b : guarded c b = truthy (property (kind c) b).
Proof. destruct c as [[] v]; reflexivity. Qed.

Lemma wf_constructor : wf Builder.constructor.
Proof. split; [reflexivity|reflexivity|]. intros []; cbn; discriminate. Qed.

Lemma wf_slot b k : wf b -> slot b k = stage k.
Proof. intros [Hsv _ _]. unfold slot. rewrite Hsv. destruct k; reflexivity. Qed.

Lemma stage_lt_6 k : stage k < 6.
Proof. destruct k; cbn; lia. Qed.

Lemma array_test_lt a j : array_test a j = true -> j < length a.
Proof.
  unfold array_test. intros H. destruct (a !! j) eqn:E; [|discriminate H].
  eapply lookup_lt_Some, E.
Qed.

Lemma array_test_set_mono i a j :
  i < length a -> array_test a j = true -> array_test (array_set i true a) j = true.
Proof.
  intros Hi Hj. destruct (decide (i = j)) as [->|Hne]; [apply array_test_set|].
  rewrite array_test_set_ne; [exact Hj|exact Hne|]. apply array_test_lt, Hj.
Qed.

Lemma state_store c b : Builder.state (store c b) = Builder.state b.
Proof. destruct c as [[] v]; reflexivity. Qed.

Lemma property_set_state k i b : property k (Builder.set_state i b) = property k b.
Proof. destruct k; reflexivity. Qed.

Lemma property_store c b k :
  property k (store c b) = if decide (kind c = k) then
                             if single_valued k then Some (value c) else None
                           else property k b.
Proof. destruct c as [[] v], k; reflexivity. Qed.

Lemma wf_invoke c b : wf b -> wf (snd (invoke c b)).
Proof.
  intros Hwf. rewrite invoke_state. destruct (guarded c b); [exact Hwf|].
  rewrite (wf_slot _ _ Hwf). destruct Hwf as [Hsv Hlen Hprop].
  pose proof (stage_lt_6 (kind c)) as Hlt.
  split.
  - destruct c as [[] v]; exact Hsv.
  - cbn [Builder.set_state Builder.state].
    rewrite state_store.
    rewrite array_set_length; [exact Hlen|lia].
  - intros k Hk. cbn [Builder.set_state Builder.state].
    rewrite state_store.
    rewrite property_set_state, property_store in Hk.
    destruct (decide (kind c = k)) as [<-|Hne].
    + apply array_test_set.
    + apply array_test_set_mono; [lia|]. apply Hprop, Hk.
Qed.

Lemma wf_after calls : forall b, wf b -> wf (after calls b).
Proof.
  induction calls as [|c calls IH]; intros b Hwf; [exact Hwf|].
  rewrite after_cons. apply IH, wf_invoke, Hwf.
Qed.

(** A call sets the slot of its stage, also when its guard throws. *)
Lemma invoke_touches c b :
  wf b -> array_test (Builder.state (snd (invoke c b))) (stage (kind c)) = true.
Proof.
  intros Hwf. rewrite invoke_state. destruct (guarded c b) eqn:Hg.
  - apply (wf_property _ Hwf). rewrite <- guarded_property. exact Hg.
  - rewrite (wf_slot _ _ Hwf). cbn [Builder.set_state Builder.state].
    apply array_test_set.
Qed.

(** No call clears a slot. *)
Lemma invoke_keeps_touched c b j :
  wf b -> array_test (Builder.state b) j = true ->
  array_test (Builder.state (snd (invoke c b))) j = true.
Proof.
  intros Hwf Hj. rewrite invoke_state. destruct (guarded c b); [exact Hj|].
  rewrite (wf_slot _ _ Hwf). cbn [Builder.set_state Builder.state].
  rewrite state_store.
  apply array_test_set_mono; [|exact Hj].
  rewrite (wf_length _ Hwf). apply stage_lt_6.
Qed.

Lemma after_keeps_touched calls : forall b j,
  wf b -> array_test (Builder.state b) j = true ->
  array_test (Builder.state (after calls b)) j = true.
Proof.
  induction calls as [|c calls IH]; intros b j Hwf Hj; [exact Hj|].
  rewrite after_cons. apply IH; [apply wf_invoke, Hwf|].
  apply invoke_keeps_touched; assumption.
Qed.

(** With a later slot set, the stage check throws. *)
Lemma checkState_later_touched i j b :
  length (Builder.state b) = 6 -> i < j ->
  array_test (Builder.state b) j = true ->
  fst (Builder.checkState i b) = Throw OrderViolationError.
Proof.
  intros Hlen Hij Hj. rewrite checkState_eq. cbn [fst Builder.set_state Builder.state].
  pose proof (array_test_lt _ _ Hj) as Hj6.
  assert (Hi : i < length (Builder.state b)) by lia.
  rewrite array_set_length by exact Hi.
  replace (touched_from _ _ _) with true; [reflexivity|].
  symmetry. apply touched_from_true. exists j. split; [lia|].
  apply array_test_set_mono; assumption.
Qed.

(** A call for a stage below a stage already added throws: the guard's
    error when the guard fires, the order error otherwise. *)
Lemma invoke_backward pre cj mid ck :
  stage (kind ck) < stage (kind cj) ->
  fst (invoke ck (after (pre ++ cj :: mid) Builder.constructor)) =
  Throw (if guarded ck (after (pre ++ cj :: mid) Builder.constructor)
         then DuplicateFragmentError else OrderViolationError).
Proof.
  intros Hlt. set (b := after (pre ++ cj :: mid) Builder.constructor).
  assert (Hwf : wf b) by apply wf_after, wf_constructor.
  assert (Hj : array_test (Builder.state b) (stage (kind cj)) = true).
  { unfold b. rewrite after_app, after_cons.
    assert (Hwf0 : wf (after pre Builder.constructor))
      by apply wf_after, wf_constructor.
    apply after_keeps_touched; [apply wf_invoke, Hwf0|].
    apply invoke_touches, Hwf0. }
  rewrite invoke_eq. destruct (guarded ck b); [reflexivity|].
  rewrite (wf_slot _ _ Hwf).
  apply checkState_later_touched with (j := stage (kind cj)).
  - rewrite state_store. apply (wf_length _ Hwf).
  - exact Hlt.
  - rewrite state_store. exact Hj.
Qed.

Lemma invoke_property_other c b k :
  kind c <> k -> property k (snd (invoke c b)) = property k b.
Proof.
  intros Hne. rewrite invoke_state. destruct (guarded c b); [reflexivity|].
  rewrite property_set_state, property_store.
  rewrite decide_False by exact Hne. reflexivity.
Qed.

Lemma after_property_untouched k calls : forall b,
  values_of k calls = [] -> property k (after calls b) = property k b.
Proof.
  induction calls as [|c calls IH]; intros b Hv; [reflexivity|].
  rewrite values_of_cons in Hv. destruct (decide (kind c = k)) as [|Hne];
    [discriminate Hv|].
  rewrite after_cons, IH by exact Hv. apply invoke_property_other, Hne.
Qed.

(** ** Going back to an earlier stage *)

(** C1, as the code has it.  After a fragment of a later stage was added,
    adding a fragment of stage K always throws.  It is the order error when
    K is [class], [attr] or [pseudoClass], and when K is [element] or [id]
    and was never added before; it is the duplicate error when K is
    [element] or [id] and the builder holds a non-empty value for it, since
    that guard runs before the stage check. *)
Theorem backward_addition_throws (pre mid : list Call) (cj ck : Call) :
  stage (kind ck) < stage (kind cj) ->
  (exists e, fst (invoke ck (after (pre ++ cj :: mid) Builder.constructor)) = Throw e) /\
  (single_valued (kind ck) = false \/ values_of (kind ck) (pre ++ cj :: mid) = [] ->
   fst (invoke ck (after (pre ++ cj :: mid) Builder.constructor))
     = Throw OrderViolationError) /\
  (truthy (property (kind ck) (after (pre ++ cj :: mid) Builder.constructor)) = true ->
   fst (invoke ck (after (pre ++ cj :: mid) Builder.constructor))
     = Throw DuplicateFragmentError).
Proof.
  intros Hlt. rewrite (invoke_backward pre cj mid ck Hlt), guarded_property.
  split; [eexists; reflexivity|]. split.
  - intros [Hm|Hn].
    + destruct ck as [[] v]; cbn in Hm; try discriminate Hm; reflexivity.
    + rewrite after_property_untouched by exact Hn.
      destruct ck as [[] v]; reflexivity.
  - intros ->. reflexivity.
Qed.

Lemma backward_addition_throws_witness :
  fst (invoke (mkCall KId "y") (after [mkCall KClass "x"] Builder.constructor))
    = Throw OrderViolationError /\
  fst (invoke (mkCall KElement "div")
         (after [mkCall KElement "table"; mkCall KAttr "href"] Builder.constructor))
    = Throw DuplicateFragmentError.
Proof.
  split.
  - assert (Hlt : stage (kind (mkCall KId "y")) < stage (kind (mkCall KClass "x")))
      by (cbn; lia).
    destruct (backward_addition_throws [] [] (mkCall KClass "x") (mkCall KId "y") Hlt)
      as (_ & Ho & _).
    apply Ho. right. reflexivity.
  - assert (Hlt : stage (kind (mkCall KElement "div"))
                  < stage (kind (mkCall KAttr "href"))) by (cbn; lia).
    destruct (backward_addition_throws [mkCall KElement "table"] []
                (mkCall KAttr "href") (mkCall KElement "div") Hlt) as (_ & _ & Hd).
    apply Hd. reflexivity.
Defined.

(** The claim as written fails: with an element already set, going back to
    [element] after an [id] throws the duplicate error, not the order
    error. *)
Lemma backward_element_throws_duplicate_error :
  stage KElement < stage KId /\
  fst (invoke (mkCall KElement "c")
         (after [mkCall KElement "a"; mkCall KId "b"] Builder.constructor))
    = Throw DuplicateFragmentError /\
  DuplicateFragmentError <> OrderViolationError.
Proof.
  split; [cbn; lia|]. split; [reflexivity|]. discriminate.
Qed.

(** ** Sequences in stage order *)

Lemma outcomes_app calls1 : forall calls2 b,
  outcomes (calls1 ++ calls2) b =
  (outcomes calls1 b ++ outcomes calls2 (after calls1 b))%list.
Proof.
  induction calls1 as [|c calls1 IH]; intros calls2 b; [reflexivity|].
  cbn [app outcomes]. rewrite IH. reflexivity.
Qed.

Lemma non_decreasing_cons c calls :
  non_decreasing (c :: calls) = true ->
  non_decreasing calls = true /\
  Forall (fun c' => stage (kind c) <= stage (kind c')) calls.
Proof.
  revert c. induction calls as [|c2 calls IH]; intros c H.
  - split; [reflexivity|constructor].
  - cbn [non_decreasing] in H. apply andb_prop in H as [H1 H2].
    apply Nat.leb_le in H1. split; [exact H2|].
    destruct (IH c2 H2) as [_ Hall]. constructor; [exact H1|].
    eapply Forall_impl; [exact Hall|]. cbn. intros; lia.
Qed.

Lemma non_decreasing_snoc calls c :
  non_decreasing (calls ++ [c]) = true ->
  non_decreasing calls = true /\
  Forall (fun c' => stage (kind c') <= stage (kind c)) calls.
Proof.
  induction calls as [|c1 calls IH]; intros H.
  - split; [reflexivity|constructor].
  - change ((c1 :: calls) ++ [c])%list with (c1 :: (calls ++ [c]))%list in H.
    pose proof (non_decreasing_cons _ _ H) as [Hnd Hall].
    destruct (IH Hnd) as [Hnd' Hall'].
    apply Forall_app in Hall as [Hall1 Hall2]. split.
    + cbn [non_decreasing]. rewrite Hnd', andb_true_r.
      destruct calls as [|c2 calls]; [reflexivity|].
      apply Nat.leb_le. inversion Hall1; assumption.
    + constructor; [inversion Hall2; assumption|exact Hall'].
Qed.

Lemma at_most_once_snoc calls c :
  at_most_once (calls ++ [c]) ->
  at_most_once calls /\
  (single_valued (kind c) = true -> values_of (kind c) calls = []).
Proof.
  intros H. split.
  - intros k Hk. specialize (H k Hk). rewrite values_of_app, length_app in H. lia.
  - intros Hk. specialize (H _ Hk).
    rewrite values_of_app, length_app, values_of_cons in H.
    rewrite decide_True in H by reflexivity. cbn in H.
    destruct (values_of (kind c) calls); [reflexivity|cbn in H; lia].
Qed.

(** Along a sequence in stage order that sets no single-valued fragment
    twice, every call returns; the slots set are those of the stages
    called, and each single-valued property holds the value of its call. *)
Lemma ordered_history calls :
  non_decreasing calls = true -> at_most_once calls ->
  Forall (fun r => r = Normal tt) (outcomes calls Builder.constructor) /\
  (forall j, array_test (Builder.state (after calls Builder.constructor)) j = true ->
             exists c, c ∈ calls /\ stage (kind c) = j) /\
  (forall k, single_valued k = true ->
             property k (after calls Builder.constructor) = last (values_of k calls)).
Proof.
  induction calls as [|c calls IH] using rev_ind; intros Hnd Hon.
  - split; [constructor|]. split.
    + intros j Hj. exfalso. revert Hj.
      do 6 (destruct j as [|j]; [discriminate|]). destruct j; discriminate.
    + intros []; cbn; intros H; try discriminate H; reflexivity.
  - apply non_decreasing_snoc in Hnd as [Hnd Hle].
    apply at_most_once_snoc in Hon as [Hon Hfresh].
    destruct (IH Hnd Hon) as (Hout & Hslots & Hprop).
    set (b := after calls Builder.constructor) in *.
    assert (Hwf : wf b) by apply wf_after, wf_constructor.
    assert (Hg : guarded c b = false).
    { rewrite guarded_property.
      destruct (single_valued (kind c)) eqn:Hs.
      - rewrite Hprop, (Hfresh eq_refl) by exact Hs. reflexivity.
      - destruct c as [[] v]; cbn in Hs; try discriminate Hs; reflexivity. }
    pose proof (state_store c b) as Hst.
    pose proof (stage_lt_6 (kind c)) as H6.
    pose proof (wf_length _ Hwf) as Hlen.
    rewrite outcomes_app, after_app. cbn [outcomes after fold_left].
    fold b. rewrite invoke_eq, Hg, (wf_slot _ _ Hwf), checkState_eq.
    cbn [fst snd Builder.set_state Builder.state]. rewrite Hst.
    rewrite array_set_length by lia.
    split; [|split].
    + apply Forall_app. split; [exact Hout|]. constructor; [|constructor].
      replace (touched_from _ _ _) with false; [reflexivity|].
      symmetry. apply touched_from_false. intros j Hj.
      rewrite array_test_set_ne by lia.
      destruct (array_test (Builder.state b) j) eqn:E; [|reflexivity].
      destruct (Hslots j E) as (c' & Hin & Hc').
      rewrite Forall_forall in Hle. specialize (Hle c' Hin). lia.
    + intros j Hj. destruct (decide (stage (kind c) = j)) as [<-|Hne].
      * exists c. split; [|reflexivity]. apply elem_of_app. right. constructor.
      * rewrite array_test_set_ne in Hj.
        -- destruct (Hslots j Hj) as (c' & Hin & Hc'). exists c'.
           split; [apply elem_of_app; left; exact Hin|exact Hc'].
        -- exact Hne.
        -- destruct (decide (j < length (Builder.state b))) as [|Hge]; [assumption|].
           exfalso. apply array_test_lt in Hj.
           unfold array_set in Hj. rewrite decide_True in Hj by lia.
           rewrite length_insert in Hj. lia.
    + intros k Hk.
      rewrite property_set_state, property_store, values_of_app, values_of_cons.
      destruct (decide (kind c = k)) as [<-|Hne].
      * rewrite Hk. cbn. rewrite last_snoc. reflexivity.
      * cbn. rewrite app_nil_r. apply Hprop, Hk.
Qed.

Lemma rendering_single k b calls :
  single_valued k = true ->
  property k b = last (values_of k calls) ->
  length (values_of k calls) <= 1 ->
  match k with
  | KElement => Rendering.element b
  | KId => Rendering.id b
  | _ => Rendering.pseudoElement b
  end = fragments k calls.
Proof.
  intros Hk Hp Hlen. unfold fragments.
  destruct (values_of k calls) as [|v [|w l]]; [| |cbn in Hlen; lia].
  - destruct k; try discriminate Hk; cbn in Hp;
      unfold Rendering.element, Rendering.id, Rendering.pseudoElement;
      rewrite Hp; reflexivity.
  - change (cat (map (fragment k) [v])) with (fragment k v +:+ "").
    rewrite append_nil_r.
    destruct k; try discriminate Hk; cbn in Hp;
      unfold Rendering.element, Rendering.id, Rendering.pseudoElement;
      rewrite Hp; destruct v; reflexivity.
Qed.

(** C2, as the code has it.  Along a sequence of additions whose stage
    indices never go down and in which [element], [id] and [pseudoElement]
    are each added at most once, no call throws, and [stringify] then
    returns the fragments in the fixed order: element, [#]id, [.]classes,
    bracketed attributes, [:]pseudo-classes, [::]pseudo-element. *)
Theorem ordered_additions_succeed_and_render (calls : list Call) :
  non_decreasing calls = true ->
  at_most_once calls ->
  Forall (fun r => r = Normal tt) (outcomes calls Builder.constructor) /\
  fst (Builder.stringify (after calls Builder.constructor)) =
    Normal (fragments KElement calls +:+ fragments KId calls +:+
            fragments KClass calls +:+ fragments KAttr calls +:+
            fragments KPseudoClass calls +:+ fragments KPseudoElement calls).
Proof.
  intros Hnd Hon. destruct (ordered_history calls Hnd Hon) as (Hout & _ & Hprop).
  split; [exact Hout|].
  rewrite stringify_eq. cbn [fst]. unfold Rendering.render.
  destruct (after_sequences calls Builder.constructor) as (H1 & H2 & H3).
  cbn [Builder.constructor Builder.sClass Builder.sAttr Builder.sPseudo app] in H1, H2, H3.
  rewrite H1, H2, H3.
  pose proof (rendering_single KElement _ calls eq_refl
                (Hprop KElement eq_refl) (Hon KElement eq_refl)) as HE.
  pose proof (rendering_single KId _ calls eq_refl
                (Hprop KId eq_refl) (Hon KId eq_refl)) as HI.
  pose proof (rendering_single KPseudoElement _ calls eq_refl
                (Hprop KPseudoElement eq_refl) (Hon KPseudoElement eq_refl)) as HP.
  cbn beta iota in HE, HI, HP. rewrite HE, HI, HP. reflexivity.
Qed.

Lemma ordered_additions_succeed_and_render_witness :
  let calls := [mkCall KElement "a"; mkCall KClass "x"; mkCall KClass "y";
                mkCall KAttr "href"; mkCall KPseudoClass "focus";
                mkCall KPseudoClass "hover"; mkCall KPseudoElement "after"] in
  Forall (fun r => r = Normal tt) (outcomes calls Builder.constructor) /\
  fst (Builder.stringify (after calls Builder.constructor)) =
    Normal "a.x.y[href]:focus:hover::after".
Proof.
  intros calls.
  assert (Hnd : non_decreasing calls = true) by reflexivity.
  assert (Hon : at_most_once calls).
  { intros k Hk. destruct k; try discriminate Hk; vm_compute; lia. }
  exact (ordered_additions_succeed_and_render calls Hnd Hon).
Defined.

(** The claim as written fails: [element] twice is a sequence in stage
    order, and its second call throws. *)
Lemma repeated_element_in_stage_order_throws :
  non_decreasing [mkCall KElement "a"; mkCall KElement "b"] = true /\
  outcomes [mkCall KElement "a"; mkCall KElement "b"] Builder.constructor
    = [Normal tt; Throw DuplicateFragmentError].
Proof. split; reflexivity. Qed.

(** ** A second [element], [id] or [pseudoElement] *)

(** Once a single-valued property holds a non-empty value it keeps one. *)
Lemma invoke_keeps_truthy c b k :
  truthy (property k b) = true -> truthy (property k (snd (invoke c b))) = true.
Proof.
  intros Hk. rewrite invoke_state. destruct (guarded c b) eqn:Hg; [exact Hk|].
  rewrite property_set_state, property_store. destruct (decide (kind c = k)) as [<-|]; [|exact Hk].
  rewrite guarded_property, Hk in Hg. discriminate Hg.
Qed.

Lemma after_keeps_truthy calls k : forall b,
  truthy (property k b) = true -> truthy (property k (after calls b)) = true.
Proof.
  induction calls as [|c calls IH]; intros b Hk; [exact Hk|].
  rewrite after_cons. apply IH, invoke_keeps_truthy, Hk.
Qed.

(** A second [element], [id] or [pseudoElement] throws the duplicate error
    whenever the first one had a non-empty value, whatever came between. *)
Lemma second_addition_after_nonempty_throws pre mid c c' b :
  single_valued (kind c) = true -> kind c' = kind c -> value c <> "" ->
  fst (invoke c' (after (pre ++ c :: mid) b)) = Throw DuplicateFragmentError.
Proof.
  intros Hs Hk Hv. rewrite invoke_eq, guarded_property, Hk.
  rewrite after_app, after_cons.
  rewrite after_keeps_truthy; [reflexivity|].
  set (b1 := after pre b). rewrite invoke_state.
  destruct (guarded c b1) eqn:Hg; [rewrite <- guarded_property; exact Hg|].
  rewrite property_set_state, property_store, decide_True, Hs by reflexivity.
  destruct (value c); [contradiction|reflexivity].
Qed.

(** C3, at the input where the code departs from it: after [element('')]
    a second [element] call returns and replaces the value, and the same
    holds for [id] and [pseudoElement]; the guard tests the stored string
    for truth and the empty string is not true. *)
Theorem second_addition_after_empty_value_returns :
  (Builder.element "" ;;; Builder.element "div") Builder.constructor
    = (Normal tt, after [mkCall KElement "div"] Builder.constructor) /\
  (Builder.id "" ;;; Builder.id "main") Builder.constructor
    = (Normal tt, after [mkCall KId "main"] Builder.constructor) /\
  (Builder.pseudoElement "" ;;; Builder.pseudoElement "after") Builder.constructor
    = (Normal tt, after [mkCall KPseudoElement "after"] Builder.constructor).
Proof. repeat split; reflexivity. Qed.

(** ** Rendering through the store *)

Lemma on_Builder_stringify l h b :
  h !! l = Some (OBuilder b) ->
  on_Builder l Builder.stringify h = (Normal (Rendering.render b), h).
Proof.
  intros Hl. unfold on_Builder. rewrite Hl, stringify_eq.
  rewrite insert_id by exact Hl. reflexivity.
Qed.

Lemma on_Combiner_get l h c :
  h !! l = Some (OCombiner c) -> on_Combiner l get h = (Normal c, h).
Proof.
  intros Hl. unfold on_Combiner, get. rewrite Hl.
  rewrite insert_id by exact Hl. reflexivity.
Qed.

(** [stringify] leaves the store as it found it, whatever it completes
    with. *)
Lemma stringify_store fuel : forall l h, snd (stringify fuel l h) = h.
Proof.
  induction fuel as [|n IH]; intros l h; [reflexivity|].
  cbn [stringify]. destruct (h !! l) as [[b|c]|] eqn:Hl; [| |reflexivity].
  - rewrite (on_Builder_stringify _ _ _ Hl). reflexivity.
  - unfold bind. rewrite (on_Combiner_get _ _ _ Hl).
    assert (Hcall : forall x, snd (call_stringify (stringify n) x h) = h).
    { intros [l'|]; [apply IH|reflexivity]. }
    destruct (call_stringify (stringify n) (Combiner.s1 c) h) as [r1 h1] eqn:E1.
    pose proof (Hcall (Combiner.s1 c)) as H1. rewrite E1 in H1. cbn in H1. subst h1.
    destruct r1 as [left| |]; [|reflexivity|reflexivity].
    rewrite (on_Combiner_get _ _ _ Hl). rewrite (on_Combiner_get _ _ _ Hl).
    destruct (call_stringify (stringify n) (Combiner.s2 c) h) as [r2 h2] eqn:E2.
    pose proof (Hcall (Combiner.s2 c)) as H2. rewrite E2 in H2. cbn in H2. subst h2.
    destruct r2; reflexivity.
Qed.

Lemma stringify_pair fuel l h : stringify fuel l h = (fst (stringify fuel l h), h).
Proof.
  rewrite <- (stringify_store fuel l h) at 3. apply surjective_pairing.
Qed.

(** The combiner case of [stringify], with the store threaded away. *)
Lemma stringify_Combiner n l h a symbol b left right :
  h !! l = Some (OCombiner (Combiner.mk (Some a) (Some b) (Some symbol))) ->
  stringify n a h = (Normal left, h) ->
  stringify n b h = (Normal right, h) ->
  stringify (S n) l h = (Normal (left +:+ " " +:+ symbol +:+ " " +:+ right), h).
Proof.
  intros Hl Ha Hb. cbn [stringify]. rewrite Hl. unfold bind.
  rewrite !(on_Combiner_get _ _ _ Hl). cbn [Combiner.s1 call_stringify].
  rewrite Ha. rewrite !(on_Combiner_get _ _ _ Hl). cbn [Combiner.s2 call_stringify].
  rewrite Hb. reflexivity.
Qed.

(** A result does not depend on the fuel left over, nor on objects the
    store holds besides. *)
Lemma stringify_extend n : forall l h h' s,
  h ⊆ h' -> stringify n l h = (Normal s, h) ->
  stringify (S n) l h' = (Normal s, h') /\ stringify n l h' = (Normal s, h').
Proof.
  induction n as [|n IH]; intros l h h' s Hsub H; [discriminate H|].
  assert (Hgoal : forall m, (forall l0 s0, stringify n l0 h = (Normal s0, h) ->
                               stringify m l0 h' = (Normal s0, h')) ->
                  stringify (S m) l h' = (Normal s, h')).
  { intros m Hm. cbn [stringify] in H |- *.
    destruct (h !! l) as [[b|c]|] eqn:Hl; [| |discriminate H].
    - rewrite (lookup_weaken _ _ _ _ Hl Hsub).
      rewrite (on_Builder_stringify _ _ _ Hl) in H.
      rewrite (on_Builder_stringify _ _ _ (lookup_weaken _ _ _ _ Hl Hsub)).
      injection H as ->. reflexivity.
    - pose proof (lookup_weaken _ _ _ _ Hl Hsub) as Hl'. rewrite Hl'.
      unfold bind in H |- *.
      rewrite !(on_Combiner_get _ _ _ Hl) in H. rewrite !(on_Combiner_get _ _ _ Hl').
      destruct (Combiner.s1 c) as [a|]; [|discriminate H]. cbn [call_stringify] in *.
      rewrite (stringify_pair n a h) in H.
      destruct (fst (stringify n a h)) as [left| |] eqn:Ea; try discriminate H.
      rewrite (Hm a left) by (rewrite (stringify_pair n a h), Ea; reflexivity).
      rewrite !(on_Combiner_get _ _ _ Hl) in H. rewrite !(on_Combiner_get _ _ _ Hl').
      destruct (Combiner.s2 c) as [b|]; [|discriminate H]. cbn [call_stringify] in *.
      rewrite (stringify_pair n b h) in H.
      destruct (fst (stringify n b h)) as [right| |] eqn:Eb; try discriminate H.
      rewrite (Hm b right) by (rewrite (stringify_pair n b h), Eb; reflexivity).
      injection H as <-. reflexivity. }
  split.
  - apply Hgoal. intros l0 s0 H0. apply (IH l0 h h' s0 Hsub H0).
  - apply Hgoal. intros l0 s0 H0. apply (IH l0 h h' s0 Hsub H0).
Qed.

Lemma renders_extend h h' l s : h ⊆ h' -> renders h l s -> renders h' l s.
Proof.
  intros Hsub [n Hn]. exists n. apply (stringify_extend n l h h' s Hsub Hn).
Qed.

Lemma renders_Combiner h l a symbol b left right :
  h !! l = Some (OCombiner (Combiner.mk (Some a) (Some b) (Some symbol))) ->
  renders h a left -> renders h b right ->
  renders h l (left +:+ " " +:+ symbol +:+ " " +:+ right).
Proof.
  intros Hl [n Hn] [m Hm]. exists (S (n + m)).
  assert (Hmore : forall k j l0 s0, stringify j l0 h = (Normal s0, h) ->
                                    stringify (k + j) l0 h = (Normal s0, h)).
  { induction k as [|k IHk]; intros j l0 s0 H0; [exact H0|].
    cbn [Nat.add]. apply (stringify_extend (k + j) l0 h h s0); [reflexivity|].
    apply IHk, H0. }
  apply stringify_Combiner with (a := a) (b := b); [exact Hl| |].
  - rewrite Nat.add_comm. apply Hmore, Hn.
  - apply Hmore, Hm.
Qed.

(** The facade's [combine]: a new object holding the three arguments. *)
Lemma combine_eq a symbol b h :
  cssSelectorBuilder.combine a symbol b h =
  (Normal (fresh (dom h)),
   <[fresh (dom h) := OCombiner (Combiner.mk (Some a) (Some b) (Some symbol))]> h).
Proof.
  unfold cssSelectorBuilder.combine, new, on_Combiner, Combiner.combine.
  unfold_M. cbn. rewrite lookup_insert_eq. cbn. rewrite insert_insert_eq.
  reflexivity.
Qed.

Lemma fresh_extends (h : heap) o : h ⊆ <[fresh (dom h) := o]> h.
Proof.
  apply insert_subseteq. apply not_elem_of_dom. apply is_fresh.
Qed.

(** ** Combiners *)

(** C5. For renderable [A] and [B] and any symbol, the object the facade's
    [combine] returns renders as [A]'s text, one space, the symbol, one
    space, [B]'s text, whatever the symbol is.  Combiners nest: with [~]
    inside and a single space as the outer symbol the text of [C] comes
    after three spaces. *)
Theorem combine_renders_with_one_space_each_side
    (h : heap) (A B : loc) (symbol a b : string) :
  renders h A a -> renders h B b ->
  (exists r h', cssSelectorBuilder.combine A symbol B h = (Normal r, h') /\
                renders h' r (a +:+ " " +:+ symbol +:+ " " +:+ b)) /\
  (forall C c, renders h C c ->
   exists r h', (let* ab := cssSelectorBuilder.combine A "~" B in
                 cssSelectorBuilder.combine ab " " C) h = (Normal r, h') /\
                renders h' r (a +:+ " ~ " +:+ b +:+ "   " +:+ c)).
Proof.
  intros HA HB.
  assert (Hone : forall (h0 : heap) X Y sym x y,
    renders h0 X x -> renders h0 Y y ->
    renders (<[fresh (dom h0) := OCombiner (Combiner.mk (Some X) (Some Y) (Some sym))]> h0)
            (fresh (dom h0)) (x +:+ " " +:+ sym +:+ " " +:+ y)).
  { intros h0 X Y sym x y HX HY.
    apply renders_Combiner with (a := X) (b := Y).
    - apply lookup_insert_eq.
    - eapply renders_extend; [apply fresh_extends|exact HX].
    - eapply renders_extend; [apply fresh_extends|exact HY]. }
  split.
  - eexists _, _. split; [apply combine_eq|]. apply Hone; assumption.
  - intros C c HC. unfold bind. rewrite combine_eq, combine_eq.
    eexists _, _. split; [reflexivity|].
    replace (a +:+ " ~ " +:+ b +:+ "   " +:+ c)
      with ((a +:+ " " +:+ "~" +:+ " " +:+ b) +:+ " " +:+ " " +:+ " " +:+ c)
      by (rewrite !append_assoc; reflexivity).
    apply Hone.
    + apply Hone; assumption.
    + eapply renders_extend; [apply fresh_extends|exact HC].
Qed.

Lemma combine_renders_with_one_space_each_side_witness :
  let h := snd ((cssSelectorBuilder.element "tr" ;;;
                 cssSelectorBuilder.element "td" ;;;
                 cssSelectorBuilder.id "x") ∅) in
  (exists r h', cssSelectorBuilder.combine 0 ">" 1 h = (Normal r, h') /\
                renders h' r "tr > td") /\
  (exists r h', (let* ab := cssSelectorBuilder.combine 0 "~" 1 in
                 cssSelectorBuilder.combine ab " " 2) h = (Normal r, h') /\
                renders h' r "tr ~ td   #x").
Proof.
  intros h.
  assert (H0 : renders h 0 "tr") by (exists 1; vm_compute; reflexivity).
  assert (H1 : renders h 1 "td") by (exists 1; vm_compute; reflexivity).
  assert (H2 : renders h 2 "#x") by (exists 1; vm_compute; reflexivity).
  destruct (combine_renders_with_one_space_each_side h 0 1 ">" "tr" "td" H0 H1)
    as [Hone Hnest].
  split; [exact Hone|exact (Hnest 2 "#x" H2)].
Defined.

Lemma on_Combiner_combine l h c a symbol b :
  h !! l = Some (OCombiner c) ->
  on_Combiner l (Combiner.combine a symbol b) h =
  (Normal tt, <[l := OCombiner (Combiner.mk (Some a) (Some b) (Some symbol))]> h).
Proof.
  intros Hl. unfold on_Combiner. rewrite Hl. reflexivity.
Qed.

(** C7, as the code has it.  Rendering, of the combiner or of any other
    object, changes nothing in the store, so the combiner's [s1], [s2] and
    [combiner] are the same at every later [stringify]; no method of a
    builder writes to a combiner.  The object's own [combine] stays
    callable and overwrites the three properties with its arguments,
    touching no other object. *)
Theorem combiner_changes_only_by_its_own_combine
    (h : heap) (l : loc) (c : Combiner.t) :
  h !! l = Some (OCombiner c) ->
  (forall fuel l', snd (stringify fuel l' h) = h) /\
  (forall fuel, perform l (OpStringify fuel) h !! l = Some (OCombiner c)) /\
  (forall A l' (body : M Builder.t A),
     snd (on_Builder l' body h) !! l = Some (OCombiner c)) /\
  (forall a symbol b,
     perform l (OpCombine a symbol b) h =
     <[l := OCombiner (Combiner.mk (Some a) (Some b) (Some symbol))]> h).
Proof.
  intros Hl. split; [|split; [|split]].
  - intros fuel l'. apply stringify_store.
  - intros fuel. cbn [perform]. rewrite stringify_store. exact Hl.
  - intros A l' body. unfold on_Builder.
    destruct (h !! l') as [[b|c']|] eqn:Hl'; try exact Hl.
    destruct (body b) as [r b']. cbn [snd].
    rewrite lookup_insert_ne; [exact Hl|]. intros ->. congruence.
  - intros a symbol b. cbn [perform].
    rewrite (on_Combiner_combine _ _ _ _ _ _ Hl). reflexivity.
Qed.

Lemma combiner_changes_only_by_its_own_combine_witness :
  let h := snd ((cssSelectorBuilder.element "div" ;;;
                 cssSelectorBuilder.element "p" ;;;
                 cssSelectorBuilder.combine 0 "+" 1) ∅) in
  perform 2 (OpStringify 2) h !! 2
    = Some (OCombiner (Combiner.mk (Some 0) (Some 1) (Some "+"))) /\
  perform 2 (OpCombine 1 ">" 0) h !! 2
    = Some (OCombiner (Combiner.mk (Some 1) (Some 0) (Some ">"))).
Proof.
  intros h.
  assert (Hl : h !! 2 = Some (OCombiner (Combiner.mk (Some 0) (Some 1) (Some "+"))))
    by (vm_compute; reflexivity).
  destruct (combiner_changes_only_by_its_own_combine h 2 _ Hl) as (_ & Hs & _ & Hc).
  split; [apply Hs|]. rewrite Hc. apply lookup_insert_eq.
Defined.

(** The claim as written fails: the object [combine] returned still has its
    [combine] method, and calling it replaces the stored operands and
    symbol, so a later [stringify] gives another text. *)
Lemma combine_on_a_combiner_overwrites_it :
  let h := snd ((cssSelectorBuilder.element "div" ;;;
                 cssSelectorBuilder.element "p" ;;;
                 cssSelectorBuilder.combine 0 "+" 1) ∅) in
  h !! 2 = Some (OCombiner (Combiner.mk (Some 0) (Some 1) (Some "+"))) /\
  fst (stringify 2 2 h) = Normal "div + p" /\
  perform 2 (OpCombine 1 ">" 0) h !! 2
    = Some (OCombiner (Combiner.mk (Some 1) (Some 0) (Some ">"))) /\
  fst (stringify 2 2 (perform 2 (OpCombine 1 ">" 0) h)) = Normal "p > div".
Proof. vm_compute. repeat split; reflexivity. Qed.

(** ** What decides the completion of a call *)

Lemma invoke_touched_inv c b j :
  wf b -> array_test (Builder.state (snd (invoke c b))) j = true ->
  j = stage (kind c) \/ array_test (Builder.state b) j = true.
Proof.
  intros Hwf Hj. rewrite invoke_state in Hj.
  destruct (guarded c b); [right; exact Hj|].
  rewrite (wf_slot _ _ Hwf) in Hj. cbn [Builder.set_state Builder.state] in Hj.
  rewrite state_store in Hj.
  destruct (decide (stage (kind c) = j)) as [->|Hne]; [left; reflexivity|right].
  pose proof (stage_lt_6 (kind c)) as H6. pose proof (wf_length _ Hwf) as Hlen.
  pose proof (array_test_lt _ _ Hj) as Hlt.
  rewrite array_set_length in Hlt by lia.
  rewrite array_test_set_ne in Hj by (lia || exact Hne). exact Hj.
Qed.

Lemma after_touched_inv calls : forall b j,
  wf b -> array_test (Builder.state (after calls b)) j = true ->
  array_test (Builder.state b) j = true \/
  exists c, c ∈ calls /\ stage (kind c) = j.
Proof.
  induction calls as [|c calls IH]; intros b j Hwf Hj; [left; exact Hj|].
  rewrite after_cons in Hj.
  destruct (IH _ _ (wf_invoke c b Hwf) Hj) as [H|(c' & Hin & Hc')].
  - destruct (invoke_touched_inv _ _ _ Hwf H) as [->|H']; [right|left; exact H'].
    exists c. split; [constructor|reflexivity].
  - right. exists c'. split; [constructor; exact Hin|exact Hc'].
Qed.

Lemma constructor_untouched j : array_test (Builder.state Builder.constructor) j = false.
Proof. do 6 (destruct j as [|j]; [reflexivity|]). reflexivity. Qed.

(** Which slots of [state] are set, in terms of the calls made. *)
Lemma slots_iff_called (calls : list Call) :
  length (Builder.state (after calls Builder.constructor)) = 6 /\
  forall j, array_test (Builder.state (after calls Builder.constructor)) j = true <->
            exists c, c ∈ calls /\ stage (kind c) = j.
Proof.
  split; [apply wf_length, wf_after, wf_constructor|].
  intros j. split.
  - intros Hj. destruct (after_touched_inv _ _ _ wf_constructor Hj) as [H|H];
      [|exact H].
    rewrite constructor_untouched in H. discriminate H.
  - intros (c & Hin & <-). apply list_elem_of_split in Hin as (pre & post & ->).
    rewrite after_app, after_cons.
    assert (Hwf : wf (after pre Builder.constructor))
      by apply wf_after, wf_constructor.
    apply after_keeps_touched; [apply wf_invoke, Hwf|].
    apply invoke_touches, Hwf.
Qed.

(** The [state] array is an exact record of the stages called: it always
    has its six slots, and slot [j] is set exactly when some call of the
    history was for stage [j], whether that call returned or threw. *)
Theorem state_records_the_stages_called (calls : list Call) :
  length (Builder.state (after calls Builder.constructor)) = 6 /\
  forall j, array_test (Builder.state (after calls Builder.constructor)) j = true <->
            exists c, c ∈ calls /\ stage (kind c) = j.
Proof. exact (slots_iff_called calls). Qed.

Lemma invoke_truthy_inv c b k :
  truthy (property k (snd (invoke c b))) = true ->
  truthy (property k b) = true \/ (kind c = k /\ value c <> "").
Proof.
  rewrite invoke_state. destruct (guarded c b); [left; assumption|].
  rewrite property_set_state, property_store.
  destruct (decide (kind c = k)) as [Hk|]; [|left; assumption].
  destruct (single_valued k); [|discriminate].
  intros H. right. split; [exact Hk|]. intros Hv. rewrite Hv in H. discriminate H.
Qed.

Lemma after_truthy_inv calls k : forall b,
  truthy (property k (after calls b)) = true ->
  truthy (property k b) = true \/
  exists c, c ∈ calls /\ kind c = k /\ value c <> "".
Proof.
  induction calls as [|c calls IH]; intros b H; [left; exact H|].
  rewrite after_cons in H. destruct (IH _ H) as [H'|(c' & Hin & Hc')].
  - destruct (invoke_truthy_inv _ _ _ H') as [H''|[Hk Hv]]; [left; exact H''|].
    right. exists c. split; [constructor|split; assumption].
  - right. exists c'. split; [constructor; exact Hin|exact Hc'].
Qed.

(** The guard of a call fires exactly on a repeated single-valued fragment
    whose earlier value was not empty. *)
Lemma guarded_iff_repeats calls c :
  guarded c (after calls Builder.constructor) = true <-> repeats calls c.
Proof.
  unfold repeats. split.
  - intros Hg. split.
    + destruct c as [[] v]; cbn in Hg |- *; try reflexivity; discriminate Hg.
    + rewrite guarded_property in Hg.
      destruct (after_truthy_inv _ _ _ Hg) as [H|H]; [|exact H].
      destruct (kind c); discriminate H.
  - intros (Hs & c' & Hin & Hk & Hv).
    apply list_elem_of_split in Hin as (pre & post & ->).
    apply invoke_duplicate_error.
    apply second_addition_after_nonempty_throws; [rewrite Hk; exact Hs|congruence|exact Hv].
Qed.

(** The stage check that follows the write throws exactly when the call
    goes back. *)
Lemma later_touched_iff_goes_back calls c :
  touched_from
    (Builder.state (Builder.set_state (stage (kind c))
                      (store c (after calls Builder.constructor))))
    (stage (kind c) + 1)
    (length (Builder.state (Builder.set_state (stage (kind c))
                              (store c (after calls Builder.constructor))))
     - (stage (kind c) + 1)) = true
  <-> goes_back calls c.
Proof.
  destruct (slots_iff_called calls) as [Hlen Hrec].
  pose proof (stage_lt_6 (kind c)) as H6.
  cbn [Builder.set_state Builder.state]. rewrite state_store.
  rewrite array_set_length by lia. rewrite Hlen.
  rewrite touched_from_true. unfold goes_back. split.
  - intros (j & Hj & Ht). rewrite array_test_set_ne in Ht by lia.
    apply Hrec in Ht as (c' & Hin & Hc'). exists c'. split; [exact Hin|lia].
  - intros (c' & Hin & Hlt). exists (stage (kind c')).
    pose proof (stage_lt_6 (kind c')) as H6'. split; [lia|].
    rewrite array_test_set_ne by lia. apply Hrec. exists c'. split; [exact Hin|reflexivity].
Qed.

(** The duplicate error is thrown exactly when the call repeats a
    single-valued fragment that an earlier call, returned or thrown, gave a
    non-empty value; it does not depend on the stage order. *)
Theorem duplicate_error_iff_repeats (calls : list Call) (c : Call) :
  fst (invoke c (after calls Builder.constructor)) = Throw DuplicateFragmentError
  <-> repeats calls c.
Proof.
  rewrite <- guarded_iff_repeats. split; [apply invoke_duplicate_error|].
  intros Hg. rewrite invoke_eq, Hg. reflexivity.
Qed.

(** The order error is thrown exactly when the call goes back to a stage
    below one already called and its duplicate guard does not fire. *)
Theorem order_error_iff_goes_back (calls : list Call) (c : Call) :
  fst (invoke c (after calls Builder.constructor)) = Throw OrderViolationError
  <-> goes_back calls c /\ ~ repeats calls c.
Proof.
  rewrite <- guarded_iff_repeats, <- later_touched_iff_goes_back.
  rewrite invoke_eq.
  destruct (guarded c (after calls Builder.constructor)) eqn:Hg.
  - split; [discriminate|]. intros [_ H]. exfalso. apply H. reflexivity.
  - rewrite (wf_slot _ _ (wf_after calls _ wf_constructor)), checkState_eq. cbn [fst].
    destruct (touched_from _ _ _); intuition (discriminate || congruence).
Qed.

(** When a call returns. *)
Lemma invoke_returns_iff (calls : list Call) (c : Call) :
  fst (invoke c (after calls Builder.constructor)) = Normal tt
  <-> ~ goes_back calls c /\ ~ repeats calls c.
Proof.
  rewrite <- guarded_iff_repeats, <- later_touched_iff_goes_back.
  rewrite invoke_eq.
  destruct (guarded c (after calls Builder.constructor)) eqn:Hg.
  - split; [discriminate|]. intros [_ H]. exfalso. apply H. reflexivity.
  - rewrite (wf_slot _ _ (wf_after calls _ wf_constructor)), checkState_eq. cbn [fst].
    destruct (touched_from _ _ _); intuition (discriminate || congruence).
Qed.

(** A call returns exactly when it neither goes back nor repeats: calling
    the same stage again, or a later one, is always accepted. *)
Theorem call_returns_iff_in_order (calls : list Call) (c : Call) :
  fst (invoke c (after calls Builder.constructor)) = Normal tt
  <-> ~ goes_back calls c /\ ~ repeats calls c.
Proof. exact (invoke_returns_iff calls c). Qed.

(** ** Chains in which every call returns *)

Lemma render_parts b :
  Rendering.render b =
  part KElement b +:+ part KId b +:+ part KClass b +:+ part KAttr b +:+
  part KPseudoClass b +:+ part KPseudoElement b.
Proof. reflexivity. Qed.

Lemma cat_map_snoc (f : string -> string) l v :
  cat (map f (l ++ [v])) = cat (map f l) +:+ f v.
Proof.
  rewrite map_app, cat_app. change (cat (map f [v])) with (f v +:+ "").
  rewrite append_nil_r. reflexivity.
Qed.

(** The write of a call whose guard did not fire adds the call's fragment
    to the part of its kind and leaves the other parts alone. *)
Lemma part_store c b k :
  guarded c b = false ->
  part k (store c b) =
  if decide (kind c = k) then part k b +:+ call_fragment c else part k b.
Proof.
  intros Hg. destruct c as [kc v]. unfold call_fragment. cbn [kind value].
  destruct kc, k; cbn [decide]; try reflexivity;
    rewrite decide_True by reflexivity; unfold guarded in Hg; cbn [kind] in Hg;
    unfold part, store; cbn [kind value]; unfold Rendering.element, Rendering.id,
      Rendering.pseudoElement, Rendering.classes, Rendering.attributes,
      Rendering.pseudoClasses; cbn [Builder.set_sElement Builder.set_sId
      Builder.push_sClass Builder.push_sAttr Builder.push_sPseudo
      Builder.set_sPseudoE Builder.sElement Builder.sId Builder.sClass
      Builder.sAttr Builder.sPseudo Builder.sPseudoE fragment];
    try (rewrite cat_map_snoc; reflexivity).
  - destruct (Builder.sElement b) as [[|]|]; try discriminate Hg; reflexivity.
  - destruct (Builder.sId b) as [[|]|]; try discriminate Hg; destruct v; reflexivity.
  - destruct (Builder.sPseudoE b) as [[|]|]; try discriminate Hg; destruct v; reflexivity.
Qed.

Lemma part_set_state k i b : part k (Builder.set_state i b) = part k b.
Proof. destruct k; reflexivity. Qed.

Lemma render_store c b :
  guarded c b = false ->
  (forall k, stage (kind c) < stage k -> part k b = "") ->
  Rendering.render (store c b) = Rendering.render b +:+ call_fragment c.
Proof.
  intros Hg Hlater. rewrite !render_parts, !(part_store c b _ Hg).
  pose proof (Hlater KId) as H1. pose proof (Hlater KClass) as H2.
  pose proof (Hlater KAttr) as H3. pose proof (Hlater KPseudoClass) as H4.
  pose proof (Hlater KPseudoElement) as H5. clear Hlater.
  destruct (kind c); cbn [stage] in *;
    repeat match goal with
           | |- context [decide (?x = ?y)] =>
               first [rewrite (decide_True (P := x = y)) by reflexivity
                     |rewrite (decide_False (P := x = y)) by discriminate]
           end;
    rewrite ?H1, ?H2, ?H3, ?H4, ?H5 by lia;
    rewrite ?append_assoc, ?append_nil_r; reflexivity.
Qed.

Lemma values_of_none k calls :
  Forall (fun c => kind c <> k) calls -> values_of k calls = [].
Proof.
  induction 1 as [|c calls Hc _ IH]; [reflexivity|].
  rewrite values_of_cons, decide_False by exact Hc. exact IH.
Qed.

(** A kind that was never called has an empty part. *)
Lemma part_untouched k calls :
  values_of k calls = [] -> part k (after calls Builder.constructor) = "".
Proof.
  intros Hv. destruct (after_sequences calls Builder.constructor) as (H1 & H2 & H3).
  pose proof (after_property_untouched k calls Builder.constructor Hv) as Hp.
  destruct k; cbn [part property] in *;
    unfold Rendering.element, Rendering.id, Rendering.pseudoElement;
    rewrite ?Hp, ?H1, ?H2, ?H3, ?Hv; reflexivity.
Qed.

Lemma non_decreasing_snoc_intro calls c :
  non_decreasing calls = true ->
  Forall (fun c' => stage (kind c') <= stage (kind c)) calls ->
  non_decreasing (calls ++ [c]) = true.
Proof.
  induction calls as [|c1 calls IH]; intros Hnd Hle; [reflexivity|].
  apply non_decreasing_cons in Hnd as Hnd'. destruct Hnd' as [Hnd' Hmin].
  inversion Hle as [|? ? Hc1 Hle']; subst.
  change ((c1 :: calls) ++ [c])%list with (c1 :: (calls ++ [c]))%list.
  cbn [non_decreasing]. rewrite (IH Hnd' Hle'), andb_true_r.
  destruct calls as [|c2 calls]; cbn [app].
  - apply Nat.leb_le. exact Hc1.
  - apply Nat.leb_le. inversion Hmin; assumption.
Qed.

(** Chains without a throw: their order and their text. *)
Lemma successful_history (calls : list Call) :
  Forall (fun r => r = Normal tt) (outcomes calls Builder.constructor) ->
  non_decreasing calls = true /\
  fst (Builder.stringify (after calls Builder.constructor))
    = Normal (cat (map call_fragment calls)).
Proof.
  rewrite stringify_eq. cbn [fst].
  induction calls as [|c calls IH] using rev_ind; intros Hout.
  - split; reflexivity.
  - rewrite outcomes_app in Hout. apply Forall_app in Hout as [Hout Hc].
    cbn [outcomes] in Hc. inversion Hc as [|? ? Hret _]; subst.
    destruct (IH Hout) as [Hnd Hrender].
    apply invoke_returns_iff in Hret as [Hback Hrep].
    assert (Hle : Forall (fun c' => stage (kind c') <= stage (kind c)) calls).
    { apply Forall_forall. intros c' Hin.
      destruct (decide (stage (kind c') <= stage (kind c))) as [|Hgt]; [assumption|].
      exfalso. apply Hback. exists c'. split; [exact Hin|lia]. }
    assert (Hg : guarded c (after calls Builder.constructor) = false).
    { destruct (guarded c (after calls Builder.constructor)) eqn:Hg; [|reflexivity].
      exfalso. apply Hrep. apply guarded_iff_repeats. exact Hg. }
    split; [apply non_decreasing_snoc_intro; assumption|].
    rewrite after_app. cbn [after fold_left].
    fold (after calls Builder.constructor).
    rewrite invoke_state, Hg.
    injection Hrender as Hrender.
    f_equal.
    transitivity (Rendering.render (store c (after calls Builder.constructor)));
      [rewrite !render_parts, !part_set_state; reflexivity|].
    rewrite render_store; [|exact Hg|].
    + rewrite Hrender, map_app, cat_app.
      change (cat (map call_fragment [c])) with (call_fragment c +:+ "").
      rewrite append_nil_r. reflexivity.
    + intros k Hk. apply part_untouched, values_of_none.
      eapply Forall_impl; [exact Hle|]. cbn. intros c' Hc' Heq.
      rewrite Heq in Hc'. lia.
Qed.

(** When every call of a chain on a fresh builder returns, the calls came
    in stage order, and [stringify] then returns the fragments of the calls
    concatenated in the order of the calls. *)
Theorem successful_chain_renders_in_call_order (calls : list Call) :
  Forall (fun r => r = Normal tt) (outcomes calls Builder.constructor) ->
  non_decreasing calls = true /\
  fst (Builder.stringify (after calls Builder.constructor))
    = Normal (cat (map call_fragment calls)).
Proof. exact (successful_history calls). Qed.

Lemma successful_chain_renders_in_call_order_witness :
  let calls := [mkCall KElement ""; mkCall KElement "ul"; mkCall KClass "nav";
                mkCall KClass "nav"; mkCall KPseudoElement "before"] in
  non_decreasing calls = true /\
  fst (Builder.stringify (after calls Builder.constructor))
    = Normal "ul.nav.nav::before".
Proof.
  intros calls.
  assert (Hout : Forall (fun r => r = Normal tt) (outcomes calls Builder.constructor))
    by (repeat constructor).
  exact (successful_chain_renders_in_call_order calls Hout).
Defined.

(** ** The facade's entry points *)

Lemma invoke_constructor c :
  invoke c Builder.constructor = (Normal tt, after [c] Builder.constructor).
Proof. destruct c as [[] v]; reflexivity. Qed.

Lemma create_eq c h :
  create c h =
  (Normal (fresh (dom h)),
   <[fresh (dom h) := OBuilder (after [c] Builder.constructor)]> h).
Proof.
  assert (H : forall body : M Builder.t unit,
    body Builder.constructor = (Normal tt, after [c] Builder.constructor) ->
    (let* builder := new (OBuilder Builder.constructor) in
     on_Builder builder body ;;; ret builder) h =
    (Normal (fresh (dom h)),
     <[fresh (dom h) := OBuilder (after [c] Builder.constructor)]> h)).
  { intros body Hbody. unfold new, on_Builder. unfold_M. cbn zeta.
    rewrite lookup_insert_eq, Hbody, insert_insert_eq. reflexivity. }
  pose proof (invoke_constructor c) as Hc. unfold create, invoke in *.
  destruct (kind c); apply H, Hc.
Qed.

Lemma render_after_one c :
  Rendering.render (after [c] Builder.constructor) = call_fragment c.
Proof.
  assert (Hout : Forall (fun r => r = Normal tt) (outcomes [c] Builder.constructor)).
  { cbn [outcomes]. rewrite invoke_constructor. repeat constructor. }
  destruct (successful_history [c] Hout) as [_ H].
  rewrite stringify_eq in H. cbn [fst] in H. injection H as H.
  etransitivity; [exact H|]. apply (append_nil_r (call_fragment c)).
Qed.

Lemma stringify_Builder_eq n l h b :
  h !! l = Some (OBuilder b) ->
  stringify (S n) l h = (Normal (Rendering.render b), h).
Proof.
  intros Hl. cbn [stringify]. rewrite Hl. apply on_Builder_stringify, Hl.
Qed.

Lemma renders_Builder h l b :
  h !! l = Some (OBuilder b) -> renders h l (Rendering.render b).
Proof.
  intros Hl. exists 1. cbn [stringify]. rewrite Hl. apply on_Builder_stringify, Hl.
Qed.

(** A fragment entry point of the facade never throws.  It returns a new
    object, at an address no object of the store has; that builder renders
    as the fragment alone, and every object that rendered before renders
    the same text after. *)
Theorem facade_starts_a_fresh_builder (c : Call) (h : heap) :
  exists l h',
    create c h = (Normal l, h') /\
    h !! l = None /\
    h' !! l = Some (OBuilder (after [c] Builder.constructor)) /\
    renders h' l (call_fragment c) /\
    (forall l' s, renders h l' s -> renders h' l' s).
Proof.
  eexists _, _. split; [apply create_eq|].
  split; [apply not_elem_of_dom, is_fresh|].
  split; [apply lookup_insert_eq|]. split.
  - rewrite <- render_after_one. apply renders_Builder, lookup_insert_eq.
  - intros l' s. apply renders_extend, fresh_extends.
Qed.

(** ** Stores the facade builds *)

Lemma stringify_Combiner_intro n l h c a b left right :
  h !! l = Some (OCombiner c) ->
  Combiner.s1 c = Some a -> Combiner.s2 c = Some b ->
  stringify n a h = (Normal left, h) ->
  stringify n b h = (Normal right, h) ->
  stringify (S n) l h =
    (Normal (left +:+ " " +:+ to_String (Combiner.combiner c) +:+ " " +:+ right), h).
Proof.
  intros Hl H1 H2 Ha Hb. cbn [stringify]. rewrite Hl. unfold bind.
  rewrite !(on_Combiner_get _ _ _ Hl), H1. cbn [call_stringify].
  rewrite Ha. rewrite !(on_Combiner_get _ _ _ Hl), H2. cbn [call_stringify].
  rewrite Hb. reflexivity.
Qed.

Lemma stringify_Combiner_inv n l h c s :
  h !! l = Some (OCombiner c) ->
  stringify (S n) l h = (Normal s, h) ->
  exists a b left right,
    Combiner.s1 c = Some a /\ Combiner.s2 c = Some b /\
    stringify n a h = (Normal left, h) /\
    stringify n b h = (Normal right, h) /\
    s = left +:+ " " +:+ to_String (Combiner.combiner c) +:+ " " +:+ right.
Proof.
  intros Hl H. cbn [stringify] in H. rewrite Hl in H. unfold bind in H.
  rewrite !(on_Combiner_get _ _ _ Hl) in H.
  destruct (Combiner.s1 c) as [a|]; [|discriminate H]. cbn [call_stringify] in H.
  rewrite (stringify_pair n a h) in H.
  destruct (fst (stringify n a h)) as [left| |] eqn:Ea; try discriminate H.
  rewrite !(on_Combiner_get _ _ _ Hl) in H.
  destruct (Combiner.s2 c) as [b|]; [|discriminate H]. cbn [call_stringify] in H.
  rewrite (stringify_pair n b h) in H.
  destruct (fst (stringify n b h)) as [right| |] eqn:Eb; try discriminate H.
  exists a, b, left, right. repeat split.
  - rewrite (stringify_pair n a h), Ea. reflexivity.
  - rewrite (stringify_pair n b h), Eb. reflexivity.
  - unfold ret in H. congruence.
Qed.

(** Replacing a builder by another builder keeps every object renderable,
    with the same fuel. *)
Lemma stringify_update_builder n : forall l h A bA b' s,
  h !! A = Some (OBuilder bA) ->
  stringify n l h = (Normal s, h) ->
  exists s', stringify n l (<[A := OBuilder b']> h)
             = (Normal s', <[A := OBuilder b']> h).
Proof.
  induction n as [|n IH]; intros l h A bA b' s HA H; [discriminate H|].
  destruct (h !! l) as [[b|c]|] eqn:Hl.
  - destruct (decide (A = l)) as [->|Hne].
    + eexists. apply stringify_Builder_eq. apply lookup_insert_eq.
    + eexists. apply stringify_Builder_eq.
      rewrite lookup_insert_ne by exact Hne. exact Hl.
  - assert (Hne : A <> l) by congruence.
    destruct (stringify_Combiner_inv _ _ _ _ _ Hl H)
      as (a & b & left & right & H1 & H2 & Ha & Hb & _).
    destruct (IH a h A bA b' left HA Ha) as [left' Ha'].
    destruct (IH b h A bA b' right HA Hb) as [right' Hb'].
    eexists. apply stringify_Combiner_intro with (a := a) (b := b);
      [rewrite lookup_insert_ne by exact Hne; exact Hl|eassumption..].
  - cbn [stringify] in H. rewrite Hl in H. discriminate H.
Qed.

Lemma chain_store l c h :
  snd (chain l (invoke c) h) =
  match h !! l with
  | Some (OBuilder b) => <[l := OBuilder (snd (invoke c b))]> h
  | _ => h
  end.
Proof.
  unfold chain, bind, on_Builder, ret.
  destruct (h !! l) as [[b|cb]|]; try reflexivity.
  destruct (invoke c b) as [[[]| |] b']; reflexivity.
Qed.

(** In a store built through the facade every object renders: no
    [stringify] throws and none recurses for ever. *)
Theorem built_objects_render (h : heap) :
  built h -> forall l, is_Some (h !! l) -> exists s, renders h l s.
Proof.
  induction 1 as [|c h _ IH|l0 c h _ IH|a symbol b h _ IH Ha Hb]; intros l Hl.
  - rewrite lookup_empty in Hl. destruct Hl as [? Hl]. discriminate Hl.
  - rewrite create_eq in Hl |- *. cbn [snd] in *.
    destruct (decide (fresh (dom h) = l)) as [<-|Hne].
    + eexists. apply renders_Builder, lookup_insert_eq.
    + rewrite lookup_insert_ne in Hl by exact Hne.
      destruct (IH l Hl) as [s Hs]. exists s.
      eapply renders_extend; [apply fresh_extends|exact Hs].
  - rewrite chain_store in Hl |- *.
    destruct (h !! l0) as [[b0|c0]|] eqn:Hl0; try (apply IH; exact Hl).
    assert (Hl' : is_Some (h !! l)).
    { destruct (decide (l0 = l)) as [<-|Hne]; [rewrite Hl0; eauto|].
      rewrite lookup_insert_ne in Hl by exact Hne. exact Hl. }
    destruct (IH l Hl') as (s & n & Hn).
    destruct (stringify_update_builder n l h l0 b0 (snd (invoke c b0)) s Hl0 Hn)
      as [s' Hs']. exists s', n. exact Hs'.
  - rewrite combine_eq in Hl |- *. cbn [snd] in *.
    destruct (decide (fresh (dom h) = l)) as [<-|Hne].
    + destruct (IH a Ha) as [sa Hsa]. destruct (IH b Hb) as [sb Hsb].
      eexists. apply renders_Combiner with (a := a) (b := b).
      * apply lookup_insert_eq.
      * eapply renders_extend; [apply fresh_extends|exact Hsa].
      * eapply renders_extend; [apply fresh_extends|exact Hsb].
    + rewrite lookup_insert_ne in Hl by exact Hne.
      destruct (IH l Hl) as [s Hs]. exists s.
      eapply renders_extend; [apply fresh_extends|exact Hs].
Qed.

Lemma built_objects_render_witness :
  let h1 := snd (create (mkCall KElement "ul") ∅) in
  let h2 := snd (chain 0 (invoke (mkCall KId "menu")) h1) in
  let h3 := snd (create (mkCall KClass "item") h2) in
  let h4 := snd (cssSelectorBuilder.combine 0 ">" 1 h3) in
  exists s, renders h4 2 s.
Proof.
  intros h1 h2 h3 h4.
  assert (Hb : built h4).
  { apply built_combine; [| vm_compute; eauto | vm_compute; eauto].
    apply built_create, built_chain, built_create, built_empty. }
  assert (Hl : is_Some (h4 !! 2)) by (vm_compute; eauto).
  exact (built_objects_render h4 Hb 2 Hl).
Defined.

(** ** Combiners and the objects they refer to *)

(** A combiner that was made its own operand, through the [combine] method
    it carries, never renders: no depth of calls is enough for its
    [stringify] to return a string. *)
Theorem self_combined_never_renders
    (h : heap) (l : loc) (c : Combiner.t) (a b : loc) (symbol : string) :
  h !! l = Some (OCombiner c) ->
  a = l \/ b = l ->
  forall fuel s,
    fst (stringify fuel l (perform l (OpCombine a symbol b) h)) <> Normal s.
Proof.
  intros Hl Hself. cbn [perform]. rewrite (on_Combiner_combine _ _ _ _ _ _ Hl).
  cbn [snd].
  set (h' := <[l := OCombiner (Combiner.mk (Some a) (Some b) (Some symbol))]> h).
  assert (Hl' : h' !! l = Some (OCombiner (Combiner.mk (Some a) (Some b) (Some symbol))))
    by apply lookup_insert_eq.
  induction fuel as [|n IH]; intros s H; [discriminate H|].
  assert (Hpair : stringify (S n) l h' = (Normal s, h'))
    by (rewrite stringify_pair, H; reflexivity).
  destruct (stringify_Combiner_inv _ _ _ _ _ Hl' Hpair)
    as (a' & b' & left & right & H1 & H2 & Ha & Hb & _).
  cbn [Combiner.s1 Combiner.s2] in H1, H2.
  injection H1 as <-. injection H2 as <-.
  destruct Hself as [-> | ->].
  - apply (IH left). rewrite Ha. reflexivity.
  - apply (IH right). rewrite Hb. reflexivity.
Qed.

Lemma self_combined_never_renders_witness :
  let h := snd ((cssSelectorBuilder.element "div" ;;;
                 cssSelectorBuilder.element "p" ;;;
                 cssSelectorBuilder.combine 0 "+" 1) ∅) in
  fst (stringify 2 2 h) = Normal "div + p" /\
  forall fuel s, fst (stringify fuel 2 (perform 2 (OpCombine 2 ">" 1) h)) <> Normal s.
Proof.
  intros h.
  assert (Hl : h !! 2 = Some (OCombiner (Combiner.mk (Some 0) (Some 1) (Some "+"))))
    by (vm_compute; reflexivity).
  split; [vm_compute; reflexivity|].
  exact (self_combined_never_renders h 2 _ 2 1 ">" Hl (or_introl eq_refl)).
Defined.

(** A combiner holds its operands by reference.  After a further fragment
    call on an operand builder, returned or thrown, the combiner renders
    what that builder holds now, not what it held when it was combined. *)
Theorem combiner_renders_current_operand
    (h : heap) (l A B : loc) (symbol right : string) (bA : Builder.t) (c : Call) :
  h !! l = Some (OCombiner (Combiner.mk (Some A) (Some B) (Some symbol))) ->
  h !! A = Some (OBuilder bA) ->
  renders (snd (chain A (invoke c) h)) B right ->
  renders (snd (chain A (invoke c) h)) l
    (Rendering.render (snd (invoke c bA)) +:+ " " +:+ symbol +:+ " " +:+ right).
Proof.
  intros Hl HA. rewrite chain_store, HA. intros HB.
  assert (Hne : A <> l) by congruence.
  apply renders_Combiner with (a := A) (b := B).
  - rewrite lookup_insert_ne by exact Hne. exact Hl.
  - apply renders_Builder, lookup_insert_eq.
  - exact HB.
Qed.

Lemma combiner_renders_current_operand_witness :
  let h := snd ((cssSelectorBuilder.class "a" ;;;
                 cssSelectorBuilder.element "p" ;;;
                 cssSelectorBuilder.combine 0 "~" 1) ∅) in
  fst (stringify 2 2 h) = Normal ".a ~ p" /\
  fst (chain 0 (invoke (mkCall KId "x")) h) = Throw OrderViolationError /\
  renders (snd (chain 0 (invoke (mkCall KId "x")) h)) 2 "#x.a ~ p".
Proof.
  intros h.
  assert (Hl : h !! 2 = Some (OCombiner (Combiner.mk (Some 0) (Some 1) (Some "~"))))
    by (vm_compute; reflexivity).
  assert (HA : h !! 0 = Some (OBuilder (after [mkCall KClass "a"] Builder.constructor)))
    by (vm_compute; reflexivity).
  assert (HB : renders (snd (chain 0 (invoke (mkCall KId "x")) h)) 1 "p")
    by (exists 1; vm_compute; reflexivity).
  split; [vm_compute; reflexivity|]. split; [vm_compute; reflexivity|].
  exact (combiner_renders_current_operand h 2 0 1 "~" "p" _ (mkCall KId "x") Hl HA HB).
Defined.
(** ** The examples of the source's documentation *)

Example doc_example_id_and_classes :
  fst ((Builder.id "main" ;;; Builder.class "container" ;;;
        Builder.class "editable" ;;; Builder.stringify) Builder.constructor)
  = Normal "#main.container.editable".
Proof. reflexivity. Qed.

Example doc_example_nested_combinators :
  fst ((let* a := cssSelectorBuilder.element "div" in
        let* a := chain a (Builder.id "main") in
        let* a := chain a (Builder.class "container") in
        let* a := chain a (Builder.class "draggable") in
        let* b := cssSelectorBuilder.element "table" in
        let* b := chain b (Builder.id "data") in
        let* c := cssSelectorBuilder.element "tr" in
        let* c := chain c (Builder.pseudoClass "nth-of-type(even)") in
        let* d := cssSelectorBuilder.element "td" in
        let* d := chain d (Builder.pseudoClass "nth-of-type(even)") in
        let* cd := cssSelectorBuilder.combine c " " d in
        let* bcd := cssSelectorBuilder.combine b "~" cd in
        let* r := cssSelectorBuilder.combine a "+" bcd in
        stringify 4 r) ∅)
  = Normal "div#main.container.draggable + table#data ~ tr:nth-of-type(even)   td:nth-of-type(even)".
Proof. vm_compute. reflexivity. Qed.


Example class_then_id_throws :
  fst ((Builder.class "x" ;;; Builder.id "y") Builder.constructor)
  = Throw OrderViolationError.
Proof. reflexivity. Qed.

Example element_twice_throws :
  fst ((Builder.element "a" ;;; Builder.element "a") Builder.constructor)
  = Throw DuplicateFragmentError.
Proof. reflexivity. Qed.
